(** * Bear / citnames: the GNU compiler recogniser and entry builder

    A shallow embedding of [source/citnames/source/semantic/ToolGcc.cc]:
    the flag table, the environment flag synthesiser, the compilation-pass
    test, the source/output extractors, the per-source argument filter, the
    executable-name patterns and the entry builder, followed by the
    properties the specification states about them. *)

From Stdlib Require Import String Ascii List Bool Arith Lia.
From stdpp Require Import strings gmap.
Import ListNotations.

Local Open Scope string_scope.
Local Open Scope list_scope.

(** ** Strings *)

(** [split sep s] cuts [s] at every occurrence of [sep]; a string with [n]
    separators gives [n + 1] segments, empty ones included. *)
Fixpoint split (sep : ascii) (s : string) : list string :=
  match s with
  | EmptyString => [EmptyString]
  | String c s' =>
      if Ascii.eqb c sep then EmptyString :: split sep s'
      else match split sep s' with
           | [] => [String c EmptyString]
           | seg :: segs => String c seg :: segs
           end
  end.

Definition string_empty (s : string) : bool :=
  match s with EmptyString => true | _ => false end.

Fixpoint list_string_eqb (a b : list string) : bool :=
  match a, b with
  | [], [] => true
  | x :: a', y :: b' => String.eqb x y && list_string_eqb a' b'
  | _, _ => false
  end.

(** ** Paths

    [fs::path] of the C++ standard library on a POSIX system, kept as the
    native pathname string.  Only the operations [ToolGcc.cc] uses are
    modelled. *)
Module fs.

Definition path := string.

(** [path::is_absolute]: on POSIX, the pathname has a root directory. *)
Definition is_absolute (p : path) : bool :=
  match p with
  | String c _ => Ascii.eqb c "/"
  | EmptyString => false
  end.

(** [path::filename]: what follows the last separator. *)
Definition filename (p : path) : string :=
  List.last (split "/" p) EmptyString.

Definition has_filename (p : path) : bool :=
  negb (string_empty (filename p)).

(** [operator/]: an absolute right operand replaces the left one; otherwise
    a separator is added when the left operand ends in a file name. *)
Definition append (p q : path) : path :=
  if is_absolute q then q
  else if has_filename p then p +:+ "/" +:+ q
  else p +:+ q.

(** The elements [path::begin() .. path::end()] iterates over after the
    root directory: the non-empty segments, and one empty element when a
    file name is followed by a trailing separator. *)
Definition elements (p : path) : list string :=
  let segs := split "/" p in
  let names := List.filter (fun s => negb (string_empty s)) segs in
  match names with
  | [] => []
  | _ :: _ => if has_filename p then names else names ++ [EmptyString]
  end.

(** [operator==] is [compare() == 0]: same root directory and the same
    elements, so that repeated separators do not matter. *)
Definition eqb (p q : path) : bool :=
  Bool.eqb (is_absolute p) (is_absolute q)
  && list_string_eqb (elements p) (elements q).

End fs.

(** ** Regular expressions

    The fragment of ECMAScript patterns that [match_executable_name] uses,
    with [std::regex_match] (the whole input must match) decided by
    derivatives. *)
Module Regex.

Inductive regex : Type :=
| Void : regex
| Eps : regex
| Cls : (ascii -> bool) -> regex
| Seq : regex -> regex -> regex
| Alt : regex -> regex -> regex
| Star : regex -> regex.

Definition Chr (c : ascii) : regex := Cls (Ascii.eqb c).
Definition NotChr (c : ascii) : regex := Cls (fun x => negb (Ascii.eqb c x)).
Definition AnyOf (cs : list ascii) : regex :=
  Cls (fun x => existsb (Ascii.eqb x) cs).
Definition Opt (r : regex) : regex := Alt Eps r.
Definition Plus (r : regex) : regex := Seq r (Star r).
(** [r{0,2}] *)
Definition UpTo2 (r : regex) : regex := Opt (Seq r (Opt r)).
Fixpoint Lit (s : string) : regex :=
  match s with
  | EmptyString => Eps
  | String c s' => Seq (Chr c) (Lit s')
  end.

(** [\d] *)
Definition is_digit (c : ascii) : bool :=
  let n := nat_of_ascii c in Nat.leb 48 n && Nat.leb n 57.
Definition Digit : regex := Cls is_digit.

(** [^] and [$]: under [regex_match] an alternative starts at the first
    and ends at the last character of the input, where both assertions
    hold. *)
Definition Bol : regex := Eps.
Definition Eol : regex := Eps.

Fixpoint nullable (r : regex) : bool :=
  match r with
  | Void => false
  | Eps => true
  | Cls _ => false
  | Seq a b => nullable a && nullable b
  | Alt a b => nullable a || nullable b
  | Star _ => true
  end.

Fixpoint deriv (c : ascii) (r : regex) : regex :=
  match r with
  | Void => Void
  | Eps => Void
  | Cls f => if f c then Eps else Void
  | Seq a b =>
      if nullable a then Alt (Seq (deriv c a) b) (deriv c b)
      else Seq (deriv c a) b
  | Alt a b => Alt (deriv c a) (deriv c b)
  | Star a => Seq (deriv c a) (Star a)
  end.

Fixpoint accepts (r : regex) (w : list ascii) : bool :=
  match w with
  | [] => nullable r
  | c :: w' => accepts (deriv c r) w'
  end.

Definition regex_match (r : regex) (s : string) : bool :=
  accepts r (list_ascii_of_string s).

(** The language of a pattern. *)
Inductive Matches : regex -> list ascii -> Prop :=
| MEps : Matches Eps []
| MCls f c : f c = true -> Matches (Cls f) [c]
| MSeq a b u v : Matches a u -> Matches b v -> Matches (Seq a b) (u ++ v)
| MAltL a b u : Matches a u -> Matches (Alt a b) u
| MAltR a b u : Matches b u -> Matches (Alt a b) u
| MStar0 a : Matches (Star a) []
| MStarS a u v : Matches a u -> Matches (Star a) v -> Matches (Star a) (u ++ v).

End Regex.

(** ** Results *)

(** [rust::Result<T>]: a value or the description of a failure. *)
Inductive Result (T : Type) : Type :=
| Ok : T -> Result T
| Err : string -> Result T.
Arguments Ok {T} _.
Arguments Err {T} _.

Definition Result_map {T U : Type} (f : T -> U) (r : Result T) : Result U :=
  match r with
  | Ok t => Ok (f t)
  | Err e => Err e
  end.

(** ** Commands and entries *)

Module report.
(** Modelled from the spec: [report::Command] is declared outside the files
    at hand; section 3 gives it as a program path, an ordered sequence of
    argument tokens, a working directory and an environment mapping.  The
    argument tokens are the ones the grammar runs over (section 4.4); the
    program path is put in front of them again when an entry is built
    (section 4.8, step 3). *)
Record Command : Type := mkCommand {
  program : fs.path;
  arguments : list string;
  working_dir : fs.path;
  environment : gmap string string
}.
End report.

Module output.
(** Modelled from the spec: [cs::output::Entry] is declared outside the
    files at hand; the fields are in the order [ToolGcc::compilations]
    initialises them. *)
Record Entry : Type := mkEntry {
  file : fs.path;
  directory : fs.path;
  output : option fs.path;
  arguments : list string
}.
Definition Entries := list Entry.
End output.

(** ** The flag grammar *)

Module parser.

(** Modelled from the spec: an ordered sequence of tokens ([Arguments] of
    [Parsers.h], which is not at hand). *)
Definition Arguments := list string.

(** Modelled from the spec: the match mode of a table entry ([Parsers.h] is
    not at hand): the key must equal the token, be a prefix of it, or
    either. *)
Inductive Match : Type := EXACT | PARTIAL | BOTH.

(** Modelled from the spec: the FlagSpec of section 3, in the argument
    order of the [Instruction(...)] calls of the table: arity, match mode,
    and whether the value must be glued to the flag. *)
Record Instruction : Type := mkInstruction {
  count : nat;
  match_mode : Match;
  equal : bool
}.

(** Modelled from the spec: the closed enumeration FlagCategory of
    section 3, under the names [ToolGcc.cc] uses. *)
Inductive CompilerFlagType : Type :=
| KIND_OF_OUTPUT
| KIND_OF_OUTPUT_NO_LINKING
| KIND_OF_OUTPUT_INFO
| KIND_OF_OUTPUT_OUTPUT
| PREPROCESSOR
| PREPROCESSOR_MAKE
| LINKER
| DIRECTORY_SEARCH
| DIRECTORY_SEARCH_LINKER
| SOURCE
| OTHER.

Definition CompilerFlagType_eqb (a b : CompilerFlagType) : bool :=
  match a, b with
  | KIND_OF_OUTPUT, KIND_OF_OUTPUT
  | KIND_OF_OUTPUT_NO_LINKING, KIND_OF_OUTPUT_NO_LINKING
  | KIND_OF_OUTPUT_INFO, KIND_OF_OUTPUT_INFO
  | KIND_OF_OUTPUT_OUTPUT, KIND_OF_OUTPUT_OUTPUT
  | PREPROCESSOR, PREPROCESSOR
  | PREPROCESSOR_MAKE, PREPROCESSOR_MAKE
  | LINKER, LINKER
  | DIRECTORY_SEARCH, DIRECTORY_SEARCH
  | DIRECTORY_SEARCH_LINKER, DIRECTORY_SEARCH_LINKER
  | SOURCE, SOURCE
  | OTHER, OTHER => true
  | _, _ => false
  end.

(** Modelled from the spec: the ClassifiedFlag of section 3, the consumed
    tokens and the category, in the field order [ToolGcc.cc] reads them. *)
Record CompilerFlag : Type := mkFlag {
  arguments : Arguments;
  type : CompilerFlagType
}.
Definition CompilerFlags := list CompilerFlag.

(** Modelled from the spec: the Flag Dictionary of section 4.1; the
    matcher of section 4.2 walks it in table order, so it is kept as the
    ordered list of the initialiser. *)
Definition FlagDefinition : Type := (Instruction * CompilerFlagType)%type.
Definition FlagsByName : Type := list (string * FlagDefinition).

(** Modelled from the spec: the tokens that remain to be matched
    (section 4.2). *)
Definition Input := list string.

(** Modelled from the spec: what the three match modes allow
    (section 4.2). *)
Definition exact_match_allowed (m : Match) : bool :=
  match m with EXACT | BOTH => true | PARTIAL => false end.
Definition partial_match_allowed (m : Match) : bool :=
  match m with PARTIAL | BOTH => true | EXACT => false end.

(** Modelled from the spec: one candidate key of the Flag Matcher
    (section 4.2).  The token matches exactly or by a non-empty prefix as
    the mode allows; with arity 0 only the token is consumed; with arity 1
    a value glued to the key stays in the token, a flag that must stick to
    its value fails without one, and any other flag takes the following
    token (when there is one). *)
Definition match_key (key : string) (i : Instruction) (input : Input)
  : option (Arguments * Input) :=
  match input with
  | [] => None
  | token :: rest =>
      let exact := exact_match_allowed (match_mode i) && String.eqb token key in
      let partial := partial_match_allowed (match_mode i)
                     && negb (string_empty key) && String.prefix key token in
      if exact || partial then
        match count i with
        | O => Some ([token], rest)
        | S _ =>
            if Nat.ltb (String.length key) (String.length token)
            then Some ([token], rest)
            else if equal i then None
            else Some (token :: firstn (count i) rest, skipn (count i) rest)
        end
      else None
  end.

(** Modelled from the spec: the Flag Matcher of section 4.2 ([FlagParser]
    of [Parsers.h]): the first key of the table that matches wins. *)
Fixpoint FlagParser (flags : FlagsByName) (input : Input)
  : option (CompilerFlag * Input) :=
  match flags with
  | [] => None
  | (key, (i, ty)) :: flags' =>
      match match_key key i input with
      | Some (args, rest) => Some (mkFlag args ty, rest)
      | None => FlagParser flags' input
      end
  end.

(** Modelled from the spec: the Source Matcher of section 4.3
    ([SourceMatcher] of [Parsers.h]) takes any token as a source file. *)
Definition SourceMatcher (input : Input) : option (CompilerFlag * Input) :=
  match input with
  | [] => None
  | token :: rest => Some (mkFlag [token] SOURCE, rest)
  end.

(** Modelled from the spec: the Catch-all Matcher of section 4.3
    ([EverythingElseFlagMatcher] of [Parsers.h]), the structural
    fallback. *)
Definition EverythingElseFlagMatcher (input : Input)
  : option (CompilerFlag * Input) :=
  match input with
  | [] => None
  | token :: rest => Some (mkFlag [token] OTHER, rest)
  end.

(** Modelled from the spec: [OneOf] of [Parsers.h]: the matchers are tried
    in order and the first that matches decides (section 4.4). *)
Fixpoint OneOf (parsers : list (Input -> option (CompilerFlag * Input)))
  (input : Input) : option (CompilerFlag * Input) :=
  match parsers with
  | [] => None
  | p :: parsers' =>
      match p input with
      | Some r => Some r
      | None => OneOf parsers' input
      end
  end.

(** Modelled from the spec: [Repeat] of [Parsers.h] (section 4.4): match,
    append the flag, move past the consumed tokens, until the input is
    exhausted; [None] when some token is matched by nothing.  Every round
    consumes a token, so [fuel] rounds suffice for [fuel] tokens. *)
Fixpoint Repeat_loop (p : Input -> option (CompilerFlag * Input))
  (fuel : nat) (input : Input) : option CompilerFlags :=
  match input with
  | [] => Some []
  | _ :: _ =>
      match fuel with
      | O => None
      | S fuel' =>
          match p input with
          | Some (flag, rest) =>
              match Repeat_loop p fuel' rest with
              | Some flags => Some (flag :: flags)
              | None => None
              end
          | None => None
          end
      end
  end.

Definition Repeat (p : Input -> option (CompilerFlag * Input))
  (input : Input) : option CompilerFlags :=
  Repeat_loop p (List.length input) input.

End parser.

(** ** ToolGcc.cc *)

Module sys.
(** Modelled from the spec: [sys::path::split] of [libsys/Path.h], the
    primitive that splits a colon-separated string into path segments. *)
Definition path_split (value : string) : list fs.path := split ":" value.
End sys.

Import parser.

(** [front()] and [back()] of the token list of a flag.  On an empty list
    they are undefined in C++; the grammar never builds such a flag, and
    here they read as the empty string. *)
Definition front (a : Arguments) : string := List.hd EmptyString a.
Definition back (a : Arguments) : string := List.last a EmptyString.

(** The initialiser of the table, entry by entry and in its order.  The key
    [-E] is listed twice: first as an exact flag of category
    [KIND_OF_OUTPUT_NO_LINKING], later as a prefix of category [OTHER]. *)
Definition FLAG_DEFINITION : FlagsByName := [
    ("-x", (mkInstruction 1 EXACT false, KIND_OF_OUTPUT));
    ("-c", (mkInstruction 0 EXACT false, KIND_OF_OUTPUT_NO_LINKING));
    ("-S", (mkInstruction 0 EXACT false, KIND_OF_OUTPUT_NO_LINKING));
    ("-E", (mkInstruction 0 EXACT false, KIND_OF_OUTPUT_NO_LINKING));
    ("-o", (mkInstruction 1 EXACT false, KIND_OF_OUTPUT_OUTPUT));
    ("-dumpbase", (mkInstruction 1 EXACT false, KIND_OF_OUTPUT));
    ("-dumpbase-ext", (mkInstruction 1 EXACT false, KIND_OF_OUTPUT));
    ("-dumpdir", (mkInstruction 1 EXACT false, KIND_OF_OUTPUT));
    ("-v", (mkInstruction 0 EXACT false, KIND_OF_OUTPUT));
    ("-###", (mkInstruction 0 EXACT false, KIND_OF_OUTPUT));
    ("--help", (mkInstruction 0 BOTH true, KIND_OF_OUTPUT_INFO));
    ("--target-help", (mkInstruction 0 EXACT false, KIND_OF_OUTPUT_INFO));
    ("--version", (mkInstruction 0 EXACT false, KIND_OF_OUTPUT_INFO));
    ("-pass-exit-codes", (mkInstruction 0 EXACT false, KIND_OF_OUTPUT));
    ("-pipe", (mkInstruction 0 EXACT false, KIND_OF_OUTPUT));
    ("-specs", (mkInstruction 0 PARTIAL true, KIND_OF_OUTPUT));
    ("-wrapper", (mkInstruction 1 EXACT false, KIND_OF_OUTPUT));
    ("-ffile-prefix-map", (mkInstruction 0 PARTIAL true, KIND_OF_OUTPUT));
    ("-fplugin", (mkInstruction 0 PARTIAL true, KIND_OF_OUTPUT));
    ("@", (mkInstruction 0 PARTIAL false, KIND_OF_OUTPUT));
    ("-A", (mkInstruction 1 BOTH false, PREPROCESSOR));
    ("-D", (mkInstruction 1 BOTH false, PREPROCESSOR));
    ("-U", (mkInstruction 1 BOTH false, PREPROCESSOR));
    ("-include", (mkInstruction 1 EXACT false, PREPROCESSOR));
    ("-imacros", (mkInstruction 1 EXACT false, PREPROCESSOR));
    ("-undef", (mkInstruction 0 EXACT false, PREPROCESSOR));
    ("-pthread", (mkInstruction 0 EXACT false, PREPROCESSOR));
    ("-M", (mkInstruction 0 EXACT false, PREPROCESSOR_MAKE));
    ("-MM", (mkInstruction 0 EXACT false, PREPROCESSOR_MAKE));
    ("-MG", (mkInstruction 0 EXACT false, PREPROCESSOR_MAKE));
    ("-MP", (mkInstruction 0 EXACT false, PREPROCESSOR_MAKE));
    ("-MD", (mkInstruction 0 EXACT false, PREPROCESSOR_MAKE));
    ("-MMD", (mkInstruction 0 EXACT false, PREPROCESSOR_MAKE));
    ("-MF", (mkInstruction 1 EXACT false, PREPROCESSOR_MAKE));
    ("-MT", (mkInstruction 1 EXACT false, PREPROCESSOR_MAKE));
    ("-MQ", (mkInstruction 1 EXACT false, PREPROCESSOR_MAKE));
    ("-C", (mkInstruction 0 EXACT false, PREPROCESSOR));
    ("-CC", (mkInstruction 0 EXACT false, PREPROCESSOR));
    ("-P", (mkInstruction 0 EXACT false, PREPROCESSOR));
    ("-traditional", (mkInstruction 0 BOTH false, PREPROCESSOR));
    ("-trigraphs", (mkInstruction 0 EXACT false, PREPROCESSOR));
    ("-remap", (mkInstruction 0 EXACT false, PREPROCESSOR));
    ("-H", (mkInstruction 0 EXACT false, PREPROCESSOR));
    ("-Xpreprocessor", (mkInstruction 1 EXACT false, PREPROCESSOR));
    ("-Wp,", (mkInstruction 0 PARTIAL false, PREPROCESSOR));
    ("-I", (mkInstruction 1 BOTH false, DIRECTORY_SEARCH));
    ("-iplugindir", (mkInstruction 0 PARTIAL true, DIRECTORY_SEARCH));
    ("-iquote", (mkInstruction 1 EXACT false, DIRECTORY_SEARCH));
    ("-isystem", (mkInstruction 1 EXACT false, DIRECTORY_SEARCH));
    ("-idirafter", (mkInstruction 1 EXACT false, DIRECTORY_SEARCH));
    ("-iprefix", (mkInstruction 1 EXACT false, DIRECTORY_SEARCH));
    ("-iwithprefix", (mkInstruction 1 EXACT false, DIRECTORY_SEARCH));
    ("-iwithprefixbefore", (mkInstruction 1 EXACT false, DIRECTORY_SEARCH));
    ("-isysroot", (mkInstruction 1 EXACT false, DIRECTORY_SEARCH));
    ("-imultilib", (mkInstruction 1 EXACT false, DIRECTORY_SEARCH));
    ("-L", (mkInstruction 1 BOTH false, DIRECTORY_SEARCH_LINKER));
    ("-B", (mkInstruction 1 BOTH false, DIRECTORY_SEARCH));
    ("--sysroot", (mkInstruction 1 BOTH true, DIRECTORY_SEARCH));
    ("-flinker-output", (mkInstruction 0 PARTIAL true, LINKER));
    ("-fuse-ld", (mkInstruction 0 PARTIAL true, LINKER));
    ("-l", (mkInstruction 1 BOTH false, LINKER));
    ("-nostartfiles", (mkInstruction 0 EXACT false, LINKER));
    ("-nodefaultlibs", (mkInstruction 0 EXACT false, LINKER));
    ("-nolibc", (mkInstruction 0 EXACT false, LINKER));
    ("-nostdlib", (mkInstruction 0 EXACT false, LINKER));
    ("-e", (mkInstruction 1 EXACT false, LINKER));
    ("-entry", (mkInstruction 0 PARTIAL true, LINKER));
    ("-pie", (mkInstruction 0 EXACT false, LINKER));
    ("-no-pie", (mkInstruction 0 EXACT false, LINKER));
    ("-static-pie", (mkInstruction 0 EXACT false, LINKER));
    ("-r", (mkInstruction 0 EXACT false, LINKER));
    ("-rdynamic", (mkInstruction 0 EXACT false, LINKER));
    ("-s", (mkInstruction 0 EXACT false, LINKER));
    ("-symbolic", (mkInstruction 0 EXACT false, LINKER));
    ("-static", (mkInstruction 0 BOTH false, LINKER));
    ("-shared", (mkInstruction 0 BOTH false, LINKER));
    ("-T", (mkInstruction 1 EXACT false, LINKER));
    ("-Xlinker", (mkInstruction 1 EXACT false, LINKER));
    ("-Wl,", (mkInstruction 0 PARTIAL false, LINKER));
    ("-u", (mkInstruction 1 EXACT false, LINKER));
    ("-z", (mkInstruction 1 EXACT false, LINKER));
    ("-Xassembler", (mkInstruction 1 EXACT false, OTHER));
    ("-Wa,", (mkInstruction 0 PARTIAL false, OTHER));
    ("-ansi", (mkInstruction 0 EXACT false, OTHER));
    ("-aux-info", (mkInstruction 1 EXACT false, OTHER));
    ("-std", (mkInstruction 0 PARTIAL true, OTHER));
    ("-O", (mkInstruction 0 BOTH false, OTHER));
    ("-g", (mkInstruction 0 BOTH false, OTHER));
    ("-f", (mkInstruction 0 PARTIAL false, OTHER));
    ("-m", (mkInstruction 0 PARTIAL false, OTHER));
    ("-p", (mkInstruction 0 PARTIAL false, OTHER));
    ("-W", (mkInstruction 0 PARTIAL false, OTHER));
    ("-no", (mkInstruction 0 PARTIAL false, OTHER));
    ("-tno", (mkInstruction 0 PARTIAL false, OTHER));
    ("-save", (mkInstruction 0 PARTIAL false, OTHER));
    ("-d", (mkInstruction 0 PARTIAL false, OTHER));
    ("-E", (mkInstruction 0 PARTIAL false, OTHER));
    ("-Q", (mkInstruction 0 PARTIAL false, OTHER));
    ("-X", (mkInstruction 0 PARTIAL false, OTHER));
    ("-Y", (mkInstruction 0 PARTIAL false, OTHER));
    ("--", (mkInstruction 0 PARTIAL false, OTHER))
  ].

(** The lambda [inserter] of [flags_from_environment], with the captured
    [flags] passed through. *)
Definition inserter (flags : Arguments) (value flag : string) : Arguments :=
  fold_left
    (fun flags path =>
       let directory := if string_empty path then "." else path in
       (flags ++ [flag]) ++ [directory])
    (sys.path_split value) flags.

Definition flags_from_environment (environment : gmap string string) : Arguments :=
  let flags : Arguments := [] in
  let flags :=
    fold_left
      (fun flags env =>
         match environment !! env with
         | Some value => inserter flags value "-I"
         | None => flags
         end)
      ["CPATH"; "C_INCLUDE_PATH"; "CPLUS_INCLUDE_PATH"] flags in
  match environment !! "OBJC_INCLUDE_PATH" with
  | Some value => inserter flags value "-isystem"
  | None => flags
  end.

(** Modelled from the spec: the free function [parse(parser, command)] of
    [Parsers.h] runs the grammar over the full token sequence of the
    command (section 4.4) and turns an unmatched token into an error. *)
Definition parse_with (p : Input -> option CompilerFlags) (command : report.Command)
  : Result CompilerFlags :=
  match p (report.arguments command) with
  | Some flags => Ok flags
  | None => Err "Failed to recognize"
  end.

Definition parse (command : report.Command) : Result CompilerFlags :=
  parse_with
    (Repeat (OneOf [FlagParser FLAG_DEFINITION; SourceMatcher; EverythingElseFlagMatcher]))
    command.

Definition NO_COMPILATION_FLAG : list string := ["-M"; "-MM"; "-E"].

Definition runs_compilation_pass (flags : CompilerFlags) : bool :=
  match flags with
  | [] => false
  | _ :: _ =>
      if existsb (fun flag => CompilerFlagType_eqb (type flag) KIND_OF_OUTPUT_INFO) flags
      then false
      else if existsb
                (fun flag =>
                   if negb (CompilerFlagType_eqb (type flag) PREPROCESSOR_MAKE) then false
                   else
                     let candidate := front (arguments flag) in
                     existsb (fun it => String.eqb candidate it) NO_COMPILATION_FLAG)
                flags
      then false
      else true
  end.

Definition source_file (flag : CompilerFlag) : option fs.path :=
  if CompilerFlagType_eqb (type flag) SOURCE
  then Some (front (arguments flag))
  else None.

Definition source_files (flags : CompilerFlags) : list fs.path :=
  fold_left
    (fun result flag =>
       match source_file flag with
       | Some source => result ++ [source]
       | None => result
       end)
    flags [].

Definition output_file (flag : CompilerFlag) : option fs.path :=
  if CompilerFlagType_eqb (type flag) KIND_OF_OUTPUT_OUTPUT
  then Some (back (arguments flag))
  else None.

Fixpoint output_files (flags : CompilerFlags) : option fs.path :=
  match flags with
  | [] => None
  | flag :: flags' =>
      match output_file flag with
      | Some output => Some output
      | None => output_files flags'
      end
  end.

Definition type_filter_out (type : CompilerFlagType) : bool :=
  CompilerFlagType_eqb type LINKER
  || CompilerFlagType_eqb type PREPROCESSOR_MAKE
  || CompilerFlagType_eqb type DIRECTORY_SEARCH_LINKER.

Definition source_filter (source : fs.path) (flag : CompilerFlag) : bool :=
  match source_file flag with
  | None => true
  | Some candidate => fs.eqb candidate source
  end.

Definition filter_arguments (flags : CompilerFlags) (source : fs.path) : Arguments :=
  let no_linking :=
    existsb (fun flag => CompilerFlagType_eqb (type flag) KIND_OF_OUTPUT_NO_LINKING) flags in
  let result : Arguments := if negb no_linking then ["-c"] else [] in
  fold_left
    (fun result flag =>
       if negb (type_filter_out (type flag)) && source_filter source flag
       then result ++ arguments flag
       else result)
    flags result.

Import Regex.

(** [(-?\d+(\.\d+){0,2})?], the optional version suffix; [dash] is the
    pattern in front of the first number. *)
Definition version_suffix (dash : regex) : regex :=
  Opt (Seq dash (Seq (Plus Digit) (UpTo2 (Seq (Chr ".") (Plus Digit))))).

(** [([^-]*-)*], the target prefixes of a cross compiler. *)
Definition target_prefix : regex :=
  Star (Seq (Star (NotChr "-")) (Chr "-")).

Definition anchored (r : regex) : regex := Seq Bol (Seq r Eol).

(** The four entries of [patterns], in order; [dash] is [-?] in the code. *)
Definition patterns_with (dash : regex) : list regex := [
    anchored (Alt (Lit "cc") (Alt (Lit "c++") (Alt (Lit "cxx") (Lit "CC"))));
    anchored (Seq target_prefix (Seq (AnyOf ["m"; "g"]%char)
               (Seq (Lit "cc") (version_suffix dash))));
    anchored (Seq target_prefix (Seq (AnyOf ["m"; "g"]%char)
               (Seq (Lit "++") (version_suffix dash))));
    anchored (Seq target_prefix (Seq (Opt (AnyOf ["g"]%char))
               (Seq (Lit "fortran") (version_suffix dash))))
  ].

Definition patterns : list regex := patterns_with (Opt (Chr "-")).

(** [fmt::join(patterns, "|")] inside one group. *)
Definition join_alternatives (rs : list regex) : regex :=
  fold_right Alt Void rs.

Definition pattern : regex := join_alternatives patterns.

Definition match_executable_name (program : fs.path) : bool :=
  let basename := fs.filename program in
  regex_match pattern basename.

(** The lambda [transform] of [make_absolute], with the directory of the
    captured entry as an argument. *)
Definition transform (directory : fs.path) (path : fs.path) : fs.path :=
  if fs.is_absolute path then path else fs.append directory path.

Definition make_absolute (entry : output.Entry) : output.Entry :=
  let file := transform (output.directory entry) (output.file entry) in
  let out :=
    match output.output entry with
    | Some o => Some (transform (output.directory entry) o)
    | None => None
    end in
  output.mkEntry file (output.directory entry) out (output.arguments entry).

Module ToolGcc.

Definition recognize (paths : list fs.path) (program : fs.path) : bool :=
  existsb (fun p => fs.eqb p program) paths || match_executable_name program.

(** The function [compilations] maps over the parsed flags. *)
Definition compilations_of (command : report.Command) (flags : CompilerFlags)
  : output.Entries :=
  if negb (runs_compilation_pass flags) then []
  else
    let output := output_files flags in
    let sources := source_files flags in
    match sources with
    | [] => []
    | _ :: _ =>
        fold_left
          (fun result source =>
             let arguments := filter_arguments flags source in
             let arguments := report.program command :: arguments in
             let extra := flags_from_environment (report.environment command) in
             let arguments := arguments ++ extra in
             let entry :=
               output.mkEntry source (report.working_dir command) output arguments in
             result ++ [make_absolute entry])
          sources []
    end.

Definition compilations (command : report.Command) : Result output.Entries :=
  Result_map (compilations_of command) (parse command).

End ToolGcc.

(** ** The patterns as the specification words them *)

(** The specification writes the version suffix with a mandatory dash,
    [(-\d+(\.\d+){0,2})?]. *)
Definition spec_patterns : list regex := patterns_with (Chr "-").

Definition spec_recognize (paths : list fs.path) (program : fs.path) : bool :=
  existsb (String.eqb program) paths
  || regex_match (join_alternatives spec_patterns) (fs.filename program).

(** ** Notions the statements use *)

(** What one flag contributes to the list of sources. *)
Definition sources_of (flag : CompilerFlag) : list fs.path :=
  match source_file flag with
  | Some source => [source]
  | None => []
  end.

(** The flags that stand for a source file, one per occurrence. *)
Definition is_source (flag : CompilerFlag) : bool :=
  CompilerFlagType_eqb (type flag) SOURCE.

(** The entry the loop of [compilations] builds for one source. *)
Definition entry_for (command : report.Command) (flags : CompilerFlags)
  (source : fs.path) : output.Entry :=
  make_absolute
    (output.mkEntry source (report.working_dir command) (output_files flags)
       ((report.program command :: filter_arguments flags source)
          ++ flags_from_environment (report.environment command))).

(** The categories the filter drops whatever the source. *)
Definition dropped_category (ty : CompilerFlagType) : bool :=
  match ty with
  | LINKER | PREPROCESSOR_MAKE | DIRECTORY_SEARCH_LINKER => true
  | _ => false
  end.

(** A source flag whose path is not [source]. *)
Definition other_source (source : fs.path) (flag : CompilerFlag) : bool :=
  is_source flag && negb (fs.eqb (front (arguments flag)) source).

Definition kept (source : fs.path) (flag : CompilerFlag) : bool :=
  negb (dropped_category (type flag)) && negb (other_source source flag).

(** The tokens of the flags that stay, in the order of the command line. *)
Definition kept_tokens (flags : CompilerFlags) (source : fs.path) : Arguments :=
  concat (map arguments (List.filter (kept source) flags)).

Definition has_no_linking (flags : CompilerFlags) : bool :=
  existsb (fun flag => CompilerFlagType_eqb (type flag) KIND_OF_OUTPUT_NO_LINKING) flags.

(** A matcher makes progress when every match takes a non-empty prefix of
    the input as the tokens of its flag and leaves the rest. *)
Definition consumes_prefix (input : Input) (r : CompilerFlag * Input) : Prop :=
  arguments (fst r) ++ snd r = input /\ arguments (fst r) <> [].

(** The pair a segment of a directory list turns into. *)
Definition directory_pair (flag : string) (segment : string) : list string :=
  [flag; if string_empty segment then "." else segment].

(** The pairs of one variable: none when it is not set, else one pair per
    colon-separated segment, in segment order. *)
Definition variable_flags (flag : string) (value : option string) : list string :=
  match value with
  | Some v => flat_map (directory_pair flag) (sys.path_split v)
  | None => []
  end.

Definition with_extra (extra : list string) (entry : output.Entry) : output.Entry :=
  output.mkEntry (output.file entry) (output.directory entry) (output.output entry)
    (output.arguments entry ++ extra).

(** [c] does not occur in [s]. *)
Fixpoint free_of (c : ascii) (s : string) : bool :=
  match s with
  | EmptyString => true
  | String x s' => negb (Ascii.eqb x c) && free_of c s'
  end.

(** The two tokens of a synthesised directory flag. *)
Definition pair_tokens (p : string * string) : list string := [fst p; snd p].

(** The two tests of [runs_compilation_pass] on one flag: a help or version
    query, and a dependency-only run. *)
Definition is_info (flag : CompilerFlag) : bool :=
  CompilerFlagType_eqb (type flag) KIND_OF_OUTPUT_INFO.

Definition is_dependency_only (flag : CompilerFlag) : bool :=
  if negb (CompilerFlagType_eqb (type flag) PREPROCESSOR_MAKE) then false
  else existsb (fun it => String.eqb (front (arguments flag)) it) NO_COMPILATION_FLAG.

(** ** Running the model *)

Definition cmd (program : string) (args : list string) (wd : string)
  (env : gmap string string) : report.Command :=
  report.mkCommand program args wd env.

Example split_colon : split ":" ":/opt/thing" = [""; "/opt/thing"].
Proof. reflexivity. Qed.

Example fs_filename : fs.filename "/usr/bin/gcc" = "gcc" /\ fs.filename "/usr/bin/" = "".
Proof. split; reflexivity. Qed.

Example fs_eqb_sep : fs.eqb "a//b" "a/b" = true /\ fs.eqb "a/b" "a/b/" = false.
Proof. split; reflexivity. Qed.

Example fs_append : fs.append "/wd" "x.c" = "/wd/x.c" /\ fs.append "/wd/" "x.c" = "/wd/x.c".
Proof. split; reflexivity. Qed.

Example parse_two_sources :
  parse (cmd "gcc" ["-Ia"; "-Ib"; "-c"; "x.c"; "y.c"; "-o"; "out"] "/wd" ∅)
  = Ok [mkFlag ["-Ia"] DIRECTORY_SEARCH; mkFlag ["-Ib"] DIRECTORY_SEARCH;
        mkFlag ["-c"] KIND_OF_OUTPUT_NO_LINKING;
        mkFlag ["x.c"] SOURCE; mkFlag ["y.c"] SOURCE;
        mkFlag ["-o"; "out"] KIND_OF_OUTPUT_OUTPUT].
Proof. vm_compute. reflexivity. Qed.

Example recognize_examples :
  ToolGcc.recognize [] "/usr/bin/x86_64-linux-gnu-g++-11" = true
  /\ ToolGcc.recognize [] "/usr/bin/ld" = false
  /\ ToolGcc.recognize [] "gcc11" = true
  /\ spec_recognize [] "gcc11" = false.
Proof. vm_compute. repeat split; reflexivity. Qed.

Example executable_names :
  map match_executable_name
    ["cc"; "c++"; "/usr/bin/gcc-9.3.0"; "arm-none-eabi-gcc"; "gfortran-10"; "g++9";
     "clang"; "gcc-9.3.0.1"; "gcc-"; "/usr/bin/"; "ccache"]
  = [true; true; true; true; true; true; false; false; false; false; false].
Proof. vm_compute. reflexivity. Qed.

Example linker_flag_dropped :
  ToolGcc.compilations (cmd "gcc" ["-Wl,--as-needed"; "-c"; "a.c"] "/wd" ∅)
  = Ok [output.mkEntry "/wd/a.c" "/wd" None ["gcc"; "-c"; "a.c"]].
Proof. vm_compute. reflexivity. Qed.

Example synthetic_c :
  ToolGcc.compilations (cmd "gcc" ["foo.c"; "-o"; "foo"] "/wd" ∅)
  = Ok [output.mkEntry "/wd/foo.c" "/wd" (Some "/wd/foo") ["gcc"; "-c"; "foo.c"; "-o"; "foo"]]
  /\ ToolGcc.compilations (cmd "gcc" ["-S"; "foo.c"] "/wd" ∅)
     = Ok [output.mkEntry "/wd/foo.c" "/wd" None ["gcc"; "-S"; "foo.c"]].
Proof. split; vm_compute; reflexivity. Qed.

Example version_query :
  ToolGcc.compilations (cmd "gcc" ["--version"; "-c"; "a.c"] "/wd" ∅) = Ok [].
Proof. vm_compute. reflexivity. Qed.

Example compile_E :
  ToolGcc.compilations (cmd "gcc" ["-E"; "a.c"] "/wd" ∅)
  = Ok [output.mkEntry "/wd/a.c" "/wd" None ["gcc"; "-E"; "a.c"]].
Proof. vm_compute. reflexivity. Qed.

(** ** Loops that push to the back of a list *)

Section PushBack.
Context {A B : Type}.

Lemma fold_left_push_back (g : A -> list B) (l : list A) (init : list B) :
  fold_left (fun acc x => acc ++ g x) l init = init ++ flat_map g l.
Proof.
  revert init. induction l as [|x l IH]; intros init; simpl.
  - now rewrite app_nil_r.
  - rewrite IH. now rewrite <- app_assoc.
Qed.

Lemma fold_left_same (f g : list B -> A -> list B) (l : list A) (init : list B) :
  (forall acc x, f acc x = g acc x) ->
  fold_left f l init = fold_left g l init.
Proof.
  intros Hfg. revert init. induction l as [|x l IH]; intros init; simpl.
  - reflexivity.
  - rewrite Hfg. apply IH.
Qed.

Lemma flat_map_singleton (f : A -> B) (l : list A) :
  flat_map (fun x => [f x]) l = map f l.
Proof. induction l as [|x l IH]; simpl; [reflexivity|now rewrite IH]. Qed.
End PushBack.

Lemma source_files_flat_map (flags : CompilerFlags) :
  source_files flags = flat_map sources_of flags.
Proof.
  unfold source_files.
  rewrite (fold_left_same _ (fun acc x => acc ++ sources_of x)).
  - now rewrite fold_left_push_back.
  - intros acc x. unfold sources_of. destruct (source_file x); simpl; auto.
    now rewrite app_nil_r.
Qed.

Lemma CompilerFlagType_eqb_eq (a b : CompilerFlagType) :
  CompilerFlagType_eqb a b = true <-> a = b.
Proof. destruct a, b; simpl; split; intros H; congruence. Qed.

Lemma source_files_map (flags : CompilerFlags) :
  source_files flags = map (fun flag => front (arguments flag)) (List.filter is_source flags).
Proof.
  rewrite source_files_flat_map.
  induction flags as [|flag flags IH]; simpl; [reflexivity|].
  unfold sources_of at 1, source_file, is_source.
  destruct (CompilerFlagType_eqb (type flag) SOURCE); simpl; now rewrite IH.
Qed.

(** ** The entry builder in closed form *)

Lemma entry_for_fields command flags source :
  entry_for command flags source
  = output.mkEntry
      (transform (report.working_dir command) source)
      (report.working_dir command)
      (option_map (transform (report.working_dir command)) (output_files flags))
      (report.program command :: filter_arguments flags source
         ++ flags_from_environment (report.environment command)).
Proof.
  unfold entry_for, make_absolute; simpl.
  destruct (output_files flags); reflexivity.
Qed.

Lemma compilations_of_no_pass command flags :
  runs_compilation_pass flags = false -> ToolGcc.compilations_of command flags = [].
Proof. intros H. unfold ToolGcc.compilations_of. now rewrite H. Qed.

Lemma compilations_of_pass command flags :
  runs_compilation_pass flags = true ->
  ToolGcc.compilations_of command flags
  = map (entry_for command flags) (source_files flags).
Proof.
  intros H. unfold ToolGcc.compilations_of. rewrite H. simpl negb. cbv iota.
  destruct (source_files flags) as [|s l] eqn:Hs; [reflexivity|].
  rewrite (fold_left_same _
             (fun acc source => acc ++ (fun s => [entry_for command flags s]) source))
    by reflexivity.
  rewrite fold_left_push_back. apply flat_map_singleton.
Qed.

Lemma compilations_parsed command flags :
  parse command = Ok flags ->
  ToolGcc.compilations command = Ok (ToolGcc.compilations_of command flags).
Proof. intros H. unfold ToolGcc.compilations. now rewrite H. Qed.

Lemma parse_cmd program args wd env :
  parse (cmd program args wd env)
  = match Repeat (OneOf [FlagParser FLAG_DEFINITION; SourceMatcher;
                         EverythingElseFlagMatcher]) args with
    | Some flags => Ok flags
    | None => Err "Failed to recognize"
    end.
Proof. reflexivity. Qed.

(** Evaluate the closed parts of a goal about one concrete command line. *)
Ltac run_closed f :=
  repeat match goal with
         | |- context [f ?a] =>
             let v := eval vm_compute in (f a) in progress change (f a) with v
         end.
Ltac run_closed2 f :=
  repeat match goal with
         | |- context [f ?a ?b] =>
             let v := eval vm_compute in (f a b) in progress change (f a b) with v
         end.
Ltac run_parse := rewrite parse_cmd; run_closed2 Repeat.

(** ** The compilation-pass test *)

Lemma existsb_info_iff (flags : CompilerFlags) :
  existsb (fun flag => CompilerFlagType_eqb (type flag) KIND_OF_OUTPUT_INFO) flags = true
  <-> exists flag, In flag flags /\ type flag = KIND_OF_OUTPUT_INFO.
Proof.
  rewrite existsb_exists. split; intros [flag [Hin H]]; exists flag; split; auto;
    now apply CompilerFlagType_eqb_eq.
Qed.

Lemma no_compilation_flag_iff (token : string) :
  existsb (fun it => String.eqb token it) NO_COMPILATION_FLAG = true
  <-> In token ["-M"; "-MM"; "-E"].
Proof.
  unfold NO_COMPILATION_FLAG. rewrite existsb_exists. split.
  - intros [it [Hin Heq]]. apply String.eqb_eq in Heq. now subst.
  - intros Hin. exists token. split; [assumption|apply String.eqb_refl].
Qed.

Lemma existsb_make_iff (flags : CompilerFlags) :
  existsb
    (fun flag =>
       if negb (CompilerFlagType_eqb (type flag) PREPROCESSOR_MAKE) then false
       else
         let candidate := front (arguments flag) in
         existsb (fun it => String.eqb candidate it) NO_COMPILATION_FLAG)
    flags = true
  <-> exists flag token rest,
        In flag flags /\ type flag = PREPROCESSOR_MAKE
        /\ arguments flag = token :: rest /\ In token ["-M"; "-MM"; "-E"].
Proof.
  rewrite existsb_exists. split.
  - intros [flag [Hin H]].
    destruct (CompilerFlagType_eqb (type flag) PREPROCESSOR_MAKE) eqn:Hty;
      simpl in H; [|discriminate].
    apply CompilerFlagType_eqb_eq in Hty.
    apply no_compilation_flag_iff in H.
    destruct (arguments flag) as [|token rest] eqn:Hargs.
    + simpl in H. intuition discriminate.
    + exists flag, token, rest. auto.
  - intros (flag & token & rest & Hin & Hty & Hargs & Htok).
    exists flag. split; [assumption|].
    rewrite Hty, Hargs. simpl negb. cbv iota.
    now apply no_compilation_flag_iff.
Qed.

Lemma runs_compilation_pass_false_iff (flags : CompilerFlags) :
  runs_compilation_pass flags = false <->
    flags = []
    \/ (exists flag, In flag flags /\ type flag = KIND_OF_OUTPUT_INFO)
    \/ (exists flag token rest,
          In flag flags /\ type flag = PREPROCESSOR_MAKE
          /\ arguments flag = token :: rest /\ In token ["-M"; "-MM"; "-E"]).
Proof.
  rewrite <- existsb_info_iff, <- existsb_make_iff.
  destruct flags as [|flag flags]; [simpl; tauto|].
  unfold runs_compilation_pass.
  match goal with
  | |- context [if ?a then false else if ?b then false else true] =>
      destruct a; [|destruct b]
  end.
  - split; auto.
  - split; auto.
  - split; [discriminate|]. intros [H|[H|H]]; discriminate.
Qed.

(** C1. The compilation-pass classifier answers "no compilation" exactly when
    the flag sequence is empty, or holds a flag of category
    [KIND_OF_OUTPUT_INFO], or holds a [PREPROCESSOR_MAKE] flag whose first
    token is one of [-M], [-MM], [-E]; a command whose flags fail the test
    yields no entry; [-M -c a.c] yields no entry and [-MD -c a.c] yields
    exactly one. *)
Theorem runs_compilation_pass_decides :
  (forall flags : CompilerFlags,
      runs_compilation_pass flags = false <->
        flags = []
        \/ (exists flag, In flag flags /\ type flag = KIND_OF_OUTPUT_INFO)
        \/ (exists flag token rest,
              In flag flags /\ type flag = PREPROCESSOR_MAKE
              /\ arguments flag = token :: rest /\ In token ["-M"; "-MM"; "-E"]))
  /\ (forall command flags,
        parse command = Ok flags ->
        runs_compilation_pass flags = false ->
        ToolGcc.compilations command = Ok [])
  /\ (forall program wd env,
        ToolGcc.compilations (cmd program ["-M"; "-c"; "a.c"] wd env) = Ok [])
  /\ (forall program wd env,
        ToolGcc.compilations (cmd program ["-MD"; "-c"; "a.c"] wd env)
        = Ok [output.mkEntry (transform wd "a.c") wd None
                (program :: ["-c"; "a.c"] ++ flags_from_environment env)]).
Proof.
  split; [exact runs_compilation_pass_false_iff|].
  split; [|split].
  - intros command flags Hparse Hpass.
    rewrite (compilations_parsed _ _ Hparse).
    now rewrite compilations_of_no_pass.
  - intros program wd env. unfold ToolGcc.compilations. run_parse.
    simpl Result_map. now rewrite compilations_of_no_pass.
  - intros program wd env. unfold ToolGcc.compilations. run_parse.
    simpl Result_map. rewrite compilations_of_pass by reflexivity.
    run_closed source_files. simpl map. rewrite entry_for_fields.
    run_closed2 filter_arguments. run_closed output_files. reflexivity.
Qed.

Lemma runs_compilation_pass_decides_witness :
  ToolGcc.compilations (cmd "gcc" ["--version"; "a.c"] "/wd" ∅) = Ok [].
Proof.
  apply (proj1 (proj2 runs_compilation_pass_decides) _
           [mkFlag ["--version"] KIND_OF_OUTPUT_INFO; mkFlag ["a.c"] SOURCE]);
    vm_compute; reflexivity.
Defined.

(** ** The token [-E] *)

(** C2. The table classifies the lone token [-E] as
    [KIND_OF_OUTPUT_NO_LINKING] and no entry of the key [-E] has category
    [PREPROCESSOR_MAKE], so the [-E] of [NO_COMPILATION_FLAG] is never
    reached: the argument vector [-E a.c] passes the compilation-pass test
    and gives one entry. *)
Theorem preprocess_only_yields_an_entry :
  forallb
    (fun '(key, (_, ty)) =>
       negb (String.eqb key "-E" && CompilerFlagType_eqb ty PREPROCESSOR_MAKE))
    FLAG_DEFINITION = true
  /\ forall program wd env,
      parse (cmd program ["-E"; "a.c"] wd env)
      = Ok [mkFlag ["-E"] KIND_OF_OUTPUT_NO_LINKING; mkFlag ["a.c"] SOURCE]
      /\ runs_compilation_pass
           [mkFlag ["-E"] KIND_OF_OUTPUT_NO_LINKING; mkFlag ["a.c"] SOURCE] = true
      /\ ToolGcc.compilations (cmd program ["-E"; "a.c"] wd env)
         = Ok [output.mkEntry (transform wd "a.c") wd None
                 (program :: ["-E"; "a.c"] ++ flags_from_environment env)].
Proof.
  split; [vm_compute; reflexivity|].
  intros program wd env. split; [|split].
  - run_parse. reflexivity.
  - reflexivity.
  - unfold ToolGcc.compilations. run_parse. simpl Result_map.
    rewrite compilations_of_pass by reflexivity.
    run_closed source_files. simpl map. rewrite entry_for_fields.
    run_closed2 filter_arguments. run_closed output_files. reflexivity.
Qed.

(** ** Two sources in one command *)

(** C3. For [gcc -Ia -Ib -c x.c y.c -o out] the pipeline yields exactly two
    entries, in source order; each keeps both [-I] flags and leaves out the
    other source, has the output [out] and its own source as file, both
    resolved against the working directory. *)
Theorem two_sources_two_entries :
  (forall wd env,
      ToolGcc.compilations
        (cmd "gcc" ["-Ia"; "-Ib"; "-c"; "x.c"; "y.c"; "-o"; "out"] wd env)
      = Ok [output.mkEntry (transform wd "x.c") wd (Some (transform wd "out"))
              ("gcc" :: ["-Ia"; "-Ib"; "-c"; "x.c"; "-o"; "out"]
                 ++ flags_from_environment env);
            output.mkEntry (transform wd "y.c") wd (Some (transform wd "out"))
              ("gcc" :: ["-Ia"; "-Ib"; "-c"; "y.c"; "-o"; "out"]
                 ++ flags_from_environment env)])
  /\ ToolGcc.compilations
       (cmd "gcc" ["-Ia"; "-Ib"; "-c"; "x.c"; "y.c"; "-o"; "out"] "/wd" ∅)
     = Ok [output.mkEntry "/wd/x.c" "/wd" (Some "/wd/out")
             ["gcc"; "-Ia"; "-Ib"; "-c"; "x.c"; "-o"; "out"];
           output.mkEntry "/wd/y.c" "/wd" (Some "/wd/out")
             ["gcc"; "-Ia"; "-Ib"; "-c"; "y.c"; "-o"; "out"]].
Proof.
  split; [|vm_compute; reflexivity].
  intros wd env. unfold ToolGcc.compilations. run_parse. simpl Result_map.
  rewrite compilations_of_pass by reflexivity.
  run_closed source_files. simpl map. rewrite !entry_for_fields.
  run_closed2 filter_arguments. run_closed output_files. reflexivity.
Qed.

(** ** The per-source argument filter *)

Lemma type_filter_out_dropped (ty : CompilerFlagType) :
  type_filter_out ty = dropped_category ty.
Proof. destruct ty; reflexivity. Qed.

Lemma source_filter_other (source : fs.path) (flag : CompilerFlag) :
  source_filter source flag = negb (other_source source flag).
Proof.
  unfold source_filter, other_source, source_file, is_source.
  destruct (CompilerFlagType_eqb (type flag) SOURCE); simpl; [|reflexivity].
  now rewrite negb_involutive.
Qed.

Lemma filter_arguments_closed (flags : CompilerFlags) (source : fs.path) :
  filter_arguments flags source
  = (if has_no_linking flags then [] else ["-c"]) ++ kept_tokens flags source.
Proof.
  unfold filter_arguments, kept_tokens. fold (has_no_linking flags).
  rewrite (fold_left_same _
             (fun acc flag => acc ++ (if kept source flag then arguments flag else []))).
  - rewrite fold_left_push_back. f_equal.
    + now destruct (has_no_linking flags).
    + induction flags as [|flag flags IH]; simpl; [reflexivity|].
      destruct (kept source flag); simpl; now rewrite IH.
  - intros acc flag. unfold kept.
    rewrite type_filter_out_dropped, source_filter_other.
    destruct (negb (dropped_category (type flag)) && negb (other_source source flag));
      [reflexivity|now rewrite app_nil_r].
Qed.

Lemma has_no_linking_iff (flags : CompilerFlags) :
  has_no_linking flags = true
  <-> exists flag, In flag flags /\ type flag = KIND_OF_OUTPUT_NO_LINKING.
Proof.
  unfold has_no_linking. rewrite existsb_exists.
  split; intros [flag [Hin H]]; exists flag; split; auto;
    now apply CompilerFlagType_eqb_eq.
Qed.

Lemma kept_false_iff (source : fs.path) (flag : CompilerFlag) :
  kept source flag = false
  <-> type flag = LINKER \/ type flag = PREPROCESSOR_MAKE
      \/ type flag = DIRECTORY_SEARCH_LINKER
      \/ (type flag = SOURCE /\ fs.eqb (front (arguments flag)) source = false).
Proof.
  unfold kept, other_source, is_source.
  destruct (type flag); simpl;
    try (split; [discriminate | intros [H|[H|[H|[H _]]]]; discriminate]);
    try (split; auto; fail).
  destruct (fs.eqb (front (arguments flag)) source); simpl.
  - split; [discriminate | intros [H|[H|[H|[_ H]]]]; discriminate].
  - split; auto.
Qed.

(** C4. For every flag sequence and source path [source] the filter puts a
    synthetic [-c] in front exactly when no flag of category
    [KIND_OF_OUTPUT_NO_LINKING] is present; it drops every flag of category
    [LINKER], [PREPROCESSOR_MAKE] or [DIRECTORY_SEARCH_LINKER] and every
    source flag whose path differs from [source], and appends the tokens of all
    other flags unchanged and in the original order. *)
Theorem filter_arguments_spec :
  forall (flags : CompilerFlags) (source : fs.path),
    filter_arguments flags source
    = (if has_no_linking flags then [] else ["-c"])
        ++ concat (map arguments (List.filter (kept source) flags))
    /\ (has_no_linking flags = false
        <-> forall flag, In flag flags -> type flag <> KIND_OF_OUTPUT_NO_LINKING)
    /\ (forall flag,
          kept source flag = false
          <-> type flag = LINKER \/ type flag = PREPROCESSOR_MAKE
              \/ type flag = DIRECTORY_SEARCH_LINKER
              \/ (type flag = SOURCE /\ fs.eqb (front (arguments flag)) source = false)).
Proof.
  intros flags source. split; [apply filter_arguments_closed|]. split.
  - destruct (has_no_linking flags) eqn:H.
    + apply has_no_linking_iff in H. destruct H as [flag [Hin Hty]].
      split; [discriminate|]. intros Hall. now destruct (Hall flag Hin).
    + split; [|reflexivity]. intros _ flag Hin Hty.
      assert (has_no_linking flags = true) by (apply has_no_linking_iff; eauto).
      congruence.
  - intros flag. apply kept_false_iff.
Qed.

(** ** The flag stream parser *)

Lemma match_key_consumes key i input args rest :
  match_key key i input = Some (args, rest) ->
  args ++ rest = input /\ args <> [].
Proof.
  unfold match_key. destruct input as [|token tail]; [discriminate|].
  destruct (_ || _); [|discriminate].
  destruct (count i) as [|n].
  - intros H. injection H as <- <-. split; [reflexivity|discriminate].
  - destruct (Nat.ltb _ _).
    + intros H. injection H as <- <-. split; [reflexivity|discriminate].
    + destruct (equal i); [discriminate|].
      intros H. injection H as <- <-. split; [|discriminate].
      simpl. f_equal. apply firstn_skipn.
Qed.

Lemma FlagParser_consumes table input r :
  FlagParser table input = Some r -> consumes_prefix input r.
Proof.
  induction table as [|[key [i ty]] table IH]; simpl; [discriminate|].
  destruct (match_key key i input) as [[args rest]|] eqn:Hkey; [|exact IH].
  intros H. injection H as <-. now apply match_key_consumes in Hkey.
Qed.

Lemma OneOf_grammar_total table token rest :
  exists r,
    OneOf [FlagParser table; SourceMatcher; EverythingElseFlagMatcher] (token :: rest)
    = Some r
    /\ consumes_prefix (token :: rest) r.
Proof.
  simpl. destruct (FlagParser table (token :: rest)) as [r|] eqn:Hflag.
  - exists r. split; [reflexivity|]. now apply FlagParser_consumes in Hflag.
  - eexists. split; [reflexivity|]. split; [reflexivity|discriminate].
Qed.

Section RepeatTotal.
Variable p : Input -> option (CompilerFlag * Input).
Hypothesis p_total :
  forall token rest, exists r, p (token :: rest) = Some r /\ consumes_prefix (token :: rest) r.

Lemma Repeat_loop_total (fuel : nat) :
  forall input,
    List.length input <= fuel ->
    exists flags,
      Repeat_loop p fuel input = Some flags
      /\ concat (map arguments flags) = input
      /\ Forall (fun flag => arguments flag <> []) flags.
Proof.
  induction fuel as [|fuel IH]; intros input Hlen.
  - destruct input; [|simpl in Hlen; lia]. exists []. simpl. auto.
  - destruct input as [|token rest]; [exists []; simpl; auto|].
    destruct (p_total token rest) as [[flag rest'] [Hp [Happ Hne]]].
    simpl in Happ, Hne.
    assert (Hshort : List.length rest' <= fuel).
    { apply (f_equal (@List.length string)) in Happ.
      rewrite length_app in Happ. simpl in Happ, Hlen.
      destruct (arguments flag); [congruence|]. simpl in Happ. lia. }
    destruct (IH rest' Hshort) as [flags [Hloop [Hcat Hall]]].
    exists (flag :: flags). simpl. rewrite Hp, Hloop. simpl.
    split; [reflexivity|]. split; [now rewrite Hcat|now constructor].
Qed.

Lemma Repeat_total (input : Input) :
  exists flags,
    Repeat p input = Some flags
    /\ concat (map arguments flags) = input
    /\ Forall (fun flag => arguments flag <> []) flags.
Proof. apply Repeat_loop_total. reflexivity. Qed.
End RepeatTotal.

(** C5. For every argument vector the flag stream parser succeeds; the
    tokens of the flags it returns, put end to end, are the argument
    vector itself (every token consumed once, by one flag, in order), and
    no flag has an empty token list. *)
Theorem parse_consumes_every_token :
  forall command : report.Command,
  exists flags : CompilerFlags,
    parse command = Ok flags
    /\ concat (map arguments flags) = report.arguments command
    /\ Forall (fun flag => arguments flag <> []) flags
    /\ fold_right (fun flag n => List.length (arguments flag) + n) 0 flags
       = List.length (report.arguments command).
Proof.
  intros command.
  destruct (Repeat_total _ (OneOf_grammar_total FLAG_DEFINITION) (report.arguments command))
    as [flags [Hrep [Hcat Hall]]].
  exists flags. unfold parse, parse_with. rewrite Hrep.
  split; [reflexivity|]. split; [assumption|]. split; [assumption|].
  rewrite <- Hcat. clear. induction flags as [|flag flags IH]; simpl; [reflexivity|].
  now rewrite length_app, IH.
Qed.

(** ** The output path *)

Lemma compilations_of_In command flags entry :
  In entry (ToolGcc.compilations_of command flags) ->
  exists source,
    In source (source_files flags) /\ entry = entry_for command flags source.
Proof.
  destruct (runs_compilation_pass flags) eqn:Hpass.
  - rewrite compilations_of_pass by assumption.
    rewrite in_map_iff. intros [source [Heq Hin]]. eauto.
  - now rewrite compilations_of_no_pass.
Qed.

Lemma entry_for_output command flags source :
  output.output (entry_for command flags source)
  = option_map (transform (report.working_dir command)) (output_files flags).
Proof. now rewrite entry_for_fields. Qed.

Lemma output_files_none (flags : CompilerFlags) :
  (forall flag, In flag flags -> type flag <> KIND_OF_OUTPUT_OUTPUT) ->
  output_files flags = None.
Proof.
  induction flags as [|flag flags IH]; intros Hall; simpl; [reflexivity|].
  unfold output_file.
  destruct (CompilerFlagType_eqb (type flag) KIND_OF_OUTPUT_OUTPUT) eqn:Hty.
  - apply CompilerFlagType_eqb_eq in Hty. destruct (Hall flag); simpl; auto.
  - apply IH. intros g Hin. apply Hall. now right.
Qed.

Lemma output_files_first (pre post : CompilerFlags) (flag : CompilerFlag) :
  (forall g, In g pre -> type g <> KIND_OF_OUTPUT_OUTPUT) ->
  type flag = KIND_OF_OUTPUT_OUTPUT ->
  output_files (pre ++ flag :: post) = Some (back (arguments flag)).
Proof.
  intros Hpre Hty. induction pre as [|g pre IH]; simpl.
  - unfold output_file. now rewrite Hty.
  - unfold output_file at 1.
    destruct (CompilerFlagType_eqb (type g) KIND_OF_OUTPUT_OUTPUT) eqn:Hg.
    + apply CompilerFlagType_eqb_eq in Hg. destruct (Hpre g); simpl; auto.
    + apply IH. intros h Hin. apply Hpre. now right.
Qed.

Lemma back_snoc (init : Arguments) (token : string) : back (init ++ [token]) = token.
Proof. unfold back. apply last_last. Qed.

(** C6. The output path of a flag sequence is the last token of the first
    flag of category [KIND_OF_OUTPUT_OUTPUT], whether the flag holds one
    token or two; without such a flag there is none, and the entries carry
    no output.  An entry carries the extracted path, resolved against the
    working directory. *)
Theorem output_files_first_output_flag :
  forall flags : CompilerFlags,
    ((forall flag, In flag flags -> type flag <> KIND_OF_OUTPUT_OUTPUT) ->
     output_files flags = None
     /\ forall command entry,
         In entry (ToolGcc.compilations_of command flags) ->
         output.output entry = None)
    /\ (forall pre flag post init token,
          flags = pre ++ flag :: post ->
          (forall g, In g pre -> type g <> KIND_OF_OUTPUT_OUTPUT) ->
          type flag = KIND_OF_OUTPUT_OUTPUT ->
          arguments flag = init ++ [token] ->
          output_files flags = Some token
          /\ forall command entry,
              In entry (ToolGcc.compilations_of command flags) ->
              output.output entry
              = Some (transform (report.working_dir command) token)).
Proof.
  intros flags. split.
  - intros Hall. pose proof (output_files_none flags Hall) as Hnone.
    split; [assumption|]. intros command entry Hin.
    apply compilations_of_In in Hin. destruct Hin as [source [_ ->]].
    now rewrite entry_for_output, Hnone.
  - intros pre flag post init token -> Hpre Hty Hargs.
    pose proof (output_files_first pre post flag Hpre Hty) as Hsome.
    rewrite Hargs, back_snoc in Hsome.
    split; [assumption|]. intros command entry Hin.
    apply compilations_of_In in Hin. destruct Hin as [source [_ ->]].
    now rewrite entry_for_output, Hsome.
Qed.

Lemma output_files_first_output_flag_witness :
  output_files
    [mkFlag ["-c"] KIND_OF_OUTPUT_NO_LINKING; mkFlag ["a.c"] SOURCE;
     mkFlag ["-o"; "a.o"] KIND_OF_OUTPUT_OUTPUT;
     mkFlag ["-o"; "b.o"] KIND_OF_OUTPUT_OUTPUT] = Some "a.o"
  /\ output_files [mkFlag ["-c"] KIND_OF_OUTPUT_NO_LINKING; mkFlag ["a.c"] SOURCE] = None.
Proof.
  split.
  - apply (proj2 (output_files_first_output_flag _)
             [mkFlag ["-c"] KIND_OF_OUTPUT_NO_LINKING; mkFlag ["a.c"] SOURCE]
             (mkFlag ["-o"; "a.o"] KIND_OF_OUTPUT_OUTPUT)
             [mkFlag ["-o"; "b.o"] KIND_OF_OUTPUT_OUTPUT] ["-o"] "a.o").
    + reflexivity.
    + simpl. intros g [<-|[<-|[]]]; discriminate.
    + reflexivity.
    + reflexivity.
  - apply (proj1 (output_files_first_output_flag _)).
    simpl. intros g [<-|[<-|[]]]; discriminate.
Defined.

(** ** Flags from the environment *)

Lemma inserter_closed (flags : Arguments) (value flag : string) :
  inserter flags value flag = flags ++ variable_flags flag (Some value).
Proof.
  unfold inserter, variable_flags.
  rewrite (fold_left_same _ (fun acc path => acc ++ directory_pair flag path)).
  - apply fold_left_push_back.
  - intros acc path. unfold directory_pair. now rewrite <- app_assoc.
Qed.

Lemma flags_from_environment_closed (environment : gmap string string) :
  flags_from_environment environment
  = variable_flags "-I" (environment !! "CPATH")
      ++ variable_flags "-I" (environment !! "C_INCLUDE_PATH")
      ++ variable_flags "-I" (environment !! "CPLUS_INCLUDE_PATH")
      ++ variable_flags "-isystem" (environment !! "OBJC_INCLUDE_PATH").
Proof.
  unfold flags_from_environment. cbn [fold_left].
  destruct (environment !! "CPATH") as [v1|];
    destruct (environment !! "C_INCLUDE_PATH") as [v2|];
    destruct (environment !! "CPLUS_INCLUDE_PATH") as [v3|];
    destruct (environment !! "OBJC_INCLUDE_PATH") as [v4|];
    rewrite ?inserter_closed; cbn [variable_flags app];
    rewrite ?app_nil_r, <- ?app_assoc; reflexivity.
Qed.

(** C7. The environment flag synthesiser gives, for each of [CPATH],
    [C_INCLUDE_PATH], [CPLUS_INCLUDE_PATH] that is set, a pair [-I dir] per
    colon-separated segment (an empty segment reads [.]), in the order the
    variables are checked and the segments appear, then [-isystem dir]
    pairs for [OBJC_INCLUDE_PATH]; the entries of a command are the entries
    of the same command line with these tokens added at the end of each
    argument list, so the environment changes neither the number of
    entries nor anything else in them; [CPATH=/usr/x:/usr/y] adds
    [-I /usr/x -I /usr/y] after the original flags. *)
Theorem flags_from_environment_appended :
  (forall environment : gmap string string,
      flags_from_environment environment
      = variable_flags "-I" (environment !! "CPATH")
          ++ variable_flags "-I" (environment !! "C_INCLUDE_PATH")
          ++ variable_flags "-I" (environment !! "CPLUS_INCLUDE_PATH")
          ++ variable_flags "-isystem" (environment !! "OBJC_INCLUDE_PATH"))
  /\ (forall program args wd,
      exists base : output.Entries,
        forall environment,
          ToolGcc.compilations (cmd program args wd environment)
          = Ok (map (with_extra (flags_from_environment environment)) base))
  /\ flags_from_environment {["CPATH" := "/usr/x:/usr/y"]}
     = ["-I"; "/usr/x"; "-I"; "/usr/y"]
  /\ flags_from_environment {["C_INCLUDE_PATH" := ":/opt/thing"]}
     = ["-I"; "."; "-I"; "/opt/thing"]
  /\ ToolGcc.compilations
       (cmd "gcc" ["-O2"; "-c"; "a.c"; "-o"; "a.o"] "/wd" {["CPATH" := "/usr/x:/usr/y"]})
     = Ok [output.mkEntry "/wd/a.c" "/wd" (Some "/wd/a.o")
             ["gcc"; "-O2"; "-c"; "a.c"; "-o"; "a.o"; "-I"; "/usr/x"; "-I"; "/usr/y"]].
Proof.
  split; [exact flags_from_environment_closed|].
  split; [|repeat split; vm_compute; reflexivity].
  intros program args wd.
  destruct (Repeat_total _ (OneOf_grammar_total FLAG_DEFINITION) args)
    as [flags [Hrep _]].
  exists (if runs_compilation_pass flags
          then map (fun source =>
                      output.mkEntry (transform wd source) wd
                        (option_map (transform wd) (output_files flags))
                        (program :: filter_arguments flags source))
                 (source_files flags)
          else []).
  intros environment. unfold ToolGcc.compilations.
  rewrite parse_cmd, Hrep. simpl Result_map. f_equal.
  destruct (runs_compilation_pass flags) eqn:Hpass.
  - rewrite compilations_of_pass by assumption. rewrite map_map.
    apply map_ext. intros source. now rewrite entry_for_fields.
  - now rewrite compilations_of_no_pass.
Qed.

(** ** Derivatives decide the language of a pattern *)

Lemma nullable_Matches (r : regex) : nullable r = true <-> Matches r [].
Proof.
  split.
  - induction r as [| |f|a IHa b IHb|a IHa b IHb|a IHa]; simpl; intros H;
      try discriminate.
    + constructor.
    + apply andb_prop in H. destruct H as [Ha Hb].
      change (@nil ascii) with (@nil ascii ++ []). constructor; auto.
    + apply orb_prop in H. destruct H as [Ha|Hb];
        [apply MAltL|apply MAltR]; auto.
    + constructor.
  - intros H. remember (@nil ascii) as w eqn:Hw.
    induction H as [|f c Hc|a b u v Ha IHa Hb IHb|a b u Ha IHa|a b u Hb IHb
                   | a | a u v Ha IHa Hs IHs]; simpl; try reflexivity.
    + discriminate.
    + apply app_eq_nil in Hw. destruct Hw as [-> ->].
      now rewrite IHa, IHb.
    + now rewrite IHa.
    + rewrite IHb by assumption. apply orb_true_r.
Qed.

Lemma deriv_sound (c : ascii) (r : regex) :
  forall w, Matches (deriv c r) w -> Matches r (c :: w).
Proof.
  induction r as [| |f|a IHa b IHb|a IHa b IHb|a IHa]; simpl; intros w H.
  - inversion H.
  - inversion H.
  - destruct (f c) eqn:Hc; inversion H; subst. now constructor.
  - destruct (nullable a) eqn:Hn.
    + inversion H as [| | | ? ? ? H1 | ? ? ? H1 | |]; subst.
      * inversion H1 as [| | ? ? u v Hu Hv | | | |]; subst.
        change (c :: u ++ v) with ((c :: u) ++ v). constructor; auto.
      * change (c :: w) with ([] ++ c :: w). constructor; auto.
        now apply nullable_Matches.
    + inversion H as [| | ? ? u v Hu Hv | | | |]; subst.
      change (c :: u ++ v) with ((c :: u) ++ v). constructor; auto.
  - inversion H; subst; [apply MAltL|apply MAltR]; auto.
  - inversion H as [| | ? ? u v Hu Hv | | | |]; subst.
    change (c :: u ++ v) with ((c :: u) ++ v). constructor; auto.
Qed.

Lemma deriv_complete (c : ascii) (r : regex) (cw : list ascii) :
  Matches r cw -> forall w, cw = c :: w -> Matches (deriv c r) w.
Proof.
  intros H.
  induction H as [|f x Hx|a b u v Ha IHa Hb IHb|a b u Ha IHa|a b u Hb IHb
                 | a | a u v Ha IHa Hs IHs]; intros w Hw; simpl.
  - discriminate.
  - injection Hw as -> <-. rewrite Hx. constructor.
  - destruct u as [|x u]; simpl in Hw.
    + apply nullable_Matches in Ha. rewrite Ha. apply MAltR. auto.
    + injection Hw as -> <-.
      destruct (nullable a); [apply MAltL|]; constructor; auto.
  - apply MAltL. auto.
  - apply MAltR. auto.
  - discriminate.
  - destruct u as [|x u]; simpl in Hw.
    + exact (IHs w Hw).
    + injection Hw as -> <-. constructor; auto.
Qed.

Lemma accepts_Matches (w : list ascii) :
  forall r, accepts r w = true <-> Matches r w.
Proof.
  induction w as [|c w IH]; intros r; simpl.
  - apply nullable_Matches.
  - rewrite IH. split.
    + apply deriv_sound.
    + intros H. now apply (deriv_complete c r (c :: w)).
Qed.

Lemma join_alternatives_Matches (rs : list regex) (w : list ascii) :
  Matches (join_alternatives rs) w <-> exists r, In r rs /\ Matches r w.
Proof.
  induction rs as [|r rs IH]; simpl.
  - split; [intros H; inversion H|intros [r [[] _]]].
  - split.
    + intros H. inversion H as [| | | ? ? ? Hl | ? ? ? Hr | |]; subst.
      * exists r. auto.
      * apply IH in Hr. destruct Hr as [r' [Hin Hm]]. exists r'. auto.
    + intros [r' [[<-|Hin] Hm]]; [now apply MAltL|].
      apply MAltR. apply IH. eauto.
Qed.

Lemma match_executable_name_iff (program : fs.path) :
  match_executable_name program = true
  <-> exists r, In r patterns
                /\ Matches r (list_ascii_of_string (fs.filename program)).
Proof.
  unfold match_executable_name, regex_match, pattern.
  now rewrite accepts_Matches, join_alternatives_Matches.
Qed.

(** ** The executable recogniser *)

Lemma recognize_iff (paths : list fs.path) (program : fs.path) :
  ToolGcc.recognize paths program = true
  <-> (exists p, In p paths /\ fs.eqb p program = true)
      \/ (exists r, In r patterns
                    /\ Matches r (list_ascii_of_string (fs.filename program))).
Proof.
  unfold ToolGcc.recognize.
  rewrite orb_true_iff, existsb_exists, match_executable_name_iff. reflexivity.
Qed.

(** C8, as the code has it.  A program path is accepted exactly when the
    allow-list holds a path equal to it (equality of [fs::path], which
    compares element by element) or its base name is in the language of one
    of the four patterns, whose version suffix is [(-?\d+(\.\d+){0,2})?]
    with an optional dash; [/usr/bin/x86_64-linux-gnu-g++-11] is accepted
    and [/usr/bin/ld] is not. *)
Theorem recognize_allow_list_or_pattern :
  (forall (paths : list fs.path) (program : fs.path),
      ToolGcc.recognize paths program = true
      <-> (exists p, In p paths /\ fs.eqb p program = true)
          \/ (exists r, In r (patterns_with (Opt (Chr "-")))
                        /\ Matches r (list_ascii_of_string (fs.filename program))))
  /\ ToolGcc.recognize [] "/usr/bin/x86_64-linux-gnu-g++-11" = true
  /\ ToolGcc.recognize [] "/usr/bin/ld" = false.
Proof.
  split; [exact recognize_iff|]. split; vm_compute; reflexivity.
Qed.

(** C8, where the wording fails: with an empty allow-list [gcc11] is
    accepted although no pattern with a mandatory dash matches it, and a
    path that differs from an allow-list entry only by a doubled separator
    is accepted although it is not literally in the list. *)
Lemma recognize_not_as_worded :
  ToolGcc.recognize [] "gcc11" = true
  /\ spec_recognize [] "gcc11" = false
  /\ ToolGcc.recognize ["/opt/cross/bin/tool"] "/opt/cross//bin/tool" = true
  /\ spec_recognize ["/opt/cross/bin/tool"] "/opt/cross//bin/tool" = false.
Proof. repeat split; vm_compute; reflexivity. Qed.

(** ** Absolute paths *)

Lemma is_absolute_append (directory path : fs.path) :
  fs.is_absolute directory = true ->
  fs.is_absolute (fs.append directory path) = true.
Proof.
  intros Hd. unfold fs.append.
  destruct (fs.is_absolute path) eqn:Hp; [assumption|].
  destruct directory as [|c d]; [discriminate|].
  destruct (fs.has_filename (String c d)); exact Hd.
Qed.

Lemma is_absolute_transform (directory path : fs.path) :
  fs.is_absolute directory = true ->
  fs.is_absolute (transform directory path) = true.
Proof.
  intros Hd. unfold transform.
  destruct (fs.is_absolute path) eqn:Hp; [assumption|].
  now apply is_absolute_append.
Qed.

(** C9, as the code has it.  When the working directory of the command is
    absolute, every entry has an absolute file, an absolute directory and,
    when present, an absolute output; the directory is the working
    directory, the file is a source of the command and the output the
    extracted output, each kept when absolute and joined to the working
    directory otherwise. *)
Theorem entries_absolute :
  forall (command : report.Command) (entries : output.Entries) (entry : output.Entry),
    fs.is_absolute (report.working_dir command) = true ->
    ToolGcc.compilations command = Ok entries ->
    In entry entries ->
    output.directory entry = report.working_dir command
    /\ fs.is_absolute (output.directory entry) = true
    /\ fs.is_absolute (output.file entry) = true
    /\ (forall o, output.output entry = Some o -> fs.is_absolute o = true)
    /\ exists flags source,
        parse command = Ok flags
        /\ In source (source_files flags)
        /\ output.file entry
           = (if fs.is_absolute source then source
              else fs.append (report.working_dir command) source)
        /\ output.output entry
           = option_map
               (fun o => if fs.is_absolute o then o
                         else fs.append (report.working_dir command) o)
               (output_files flags).
Proof.
  intros command entries entry Hwd Hrun Hin.
  unfold ToolGcc.compilations in Hrun.
  destruct (parse command) as [flags|msg] eqn:Hparse; [|discriminate].
  simpl in Hrun. injection Hrun as <-.
  apply compilations_of_In in Hin. destruct Hin as [source [Hsrc ->]].
  rewrite entry_for_fields. simpl.
  split; [reflexivity|]. split; [assumption|].
  split; [now apply is_absolute_transform|]. split.
  - intros o Ho. destruct (output_files flags) as [out|]; [|discriminate].
    simpl in Ho. injection Ho as <-. now apply is_absolute_transform.
  - exists flags, source. auto.
Qed.

Lemma entries_absolute_witness :
  fs.is_absolute "/wd/a.c" = true /\ fs.is_absolute "/wd/a.o" = true.
Proof.
  pose proof
    (entries_absolute
       (cmd "gcc" ["-c"; "a.c"; "-o"; "a.o"] "/wd" ∅)
       [output.mkEntry "/wd/a.c" "/wd" (Some "/wd/a.o") ["gcc"; "-c"; "a.c"; "-o"; "a.o"]]
       (output.mkEntry "/wd/a.c" "/wd" (Some "/wd/a.o") ["gcc"; "-c"; "a.c"; "-o"; "a.o"])
       eq_refl) as H.
  destruct H as (_ & _ & Hfile & Hout & _).
  - vm_compute. reflexivity.
  - simpl. left. reflexivity.
  - split; [exact Hfile|]. apply Hout. reflexivity.
Defined.

(** C9, where the wording fails: the working directory is used as it comes,
    so a command with a relative working directory gives an entry whose
    directory, file and output are all relative. *)
Lemma entries_relative_working_dir :
  ToolGcc.compilations (cmd "gcc" ["-c"; "a.c"; "-o"; "a.o"] "build" ∅)
  = Ok [output.mkEntry "build/a.c" "build" (Some "build/a.o")
          ["gcc"; "-c"; "a.c"; "-o"; "a.o"]]
  /\ ToolGcc.compilations_of (cmd "gcc" ["-c"; "a.c"; "-o"; "a.o"] "build" ∅)
       [mkFlag ["-c"] KIND_OF_OUTPUT_NO_LINKING; mkFlag ["a.c"] SOURCE;
        mkFlag ["-o"; "a.o"] KIND_OF_OUTPUT_OUTPUT]
     = [output.mkEntry "build/a.c" "build" (Some "build/a.o")
          ["gcc"; "-c"; "a.c"; "-o"; "a.o"]]
  /\ fs.is_absolute "build/a.c" = false
  /\ fs.is_absolute "build" = false
  /\ fs.is_absolute "build/a.o" = false.
Proof. repeat split; vm_compute; reflexivity. Qed.

(** ** One entry per source occurrence *)

Lemma count_occ_map_le {A B : Type} (decA : forall x y : A, {x = y} + {x <> y})
  (decB : forall x y : B, {x = y} + {x <> y}) (f : A -> B) (l : list A) (x : A) :
  count_occ decA l x <= count_occ decB (map f l) (f x).
Proof.
  induction l as [|y l IH]; simpl; [lia|].
  destruct (decA y x) as [->|Hne].
  - destruct (decB (f x) (f x)); [lia|congruence].
  - destruct (decB (f y) (f x)); lia.
Qed.

(** C10. A command that passes the compilation-pass test gives one entry per
    flag of category [SOURCE], in order and without merging: the files of
    the entries are the paths of the source flags, one by one, so a path
    that occurs [k] times as a source gives [k] entries of its own. *)
Theorem one_entry_per_source_flag :
  forall (command : report.Command) (flags : CompilerFlags),
    parse command = Ok flags ->
    runs_compilation_pass flags = true ->
    exists entries : output.Entries,
      ToolGcc.compilations command = Ok entries
      /\ List.length entries = List.length (List.filter is_source flags)
      /\ map output.file entries
         = map (fun flag => transform (report.working_dir command) (front (arguments flag)))
             (List.filter is_source flags)
      /\ forall source : fs.path,
          count_occ string_dec (source_files flags) source
          <= count_occ string_dec (map output.file entries)
               (transform (report.working_dir command) source).
Proof.
  intros command flags Hparse Hpass.
  exists (map (entry_for command flags) (source_files flags)).
  split; [|split; [|split]].
  - rewrite (compilations_parsed _ _ Hparse). now rewrite compilations_of_pass.
  - now rewrite length_map, source_files_map, length_map.
  - rewrite source_files_map, !map_map. apply map_ext.
    intros flag. now rewrite entry_for_fields.
  - intros source. rewrite map_map.
    rewrite (map_ext _ (transform (report.working_dir command)))
      by (intros src; now rewrite entry_for_fields).
    apply count_occ_map_le.
Qed.

Lemma one_entry_per_source_flag_witness :
  exists entries : output.Entries,
    ToolGcc.compilations (cmd "gcc" ["-c"; "a.c"; "b.c"; "a.c"] "/wd" ∅) = Ok entries
    /\ List.length entries = 3
    /\ map output.file entries = ["/wd/a.c"; "/wd/b.c"; "/wd/a.c"]
    /\ 2 <= count_occ string_dec (map output.file entries) "/wd/a.c".
Proof.
  destruct (one_entry_per_source_flag
              (cmd "gcc" ["-c"; "a.c"; "b.c"; "a.c"] "/wd" ∅)
              [mkFlag ["-c"] KIND_OF_OUTPUT_NO_LINKING; mkFlag ["a.c"] SOURCE;
               mkFlag ["b.c"] SOURCE; mkFlag ["a.c"] SOURCE])
    as [entries (Hrun & Hlen & Hfiles & Hcount)].
  - vm_compute. reflexivity.
  - vm_compute. reflexivity.
  - exists entries. split; [exact Hrun|]. split; [exact Hlen|].
    split; [exact Hfiles|]. exact (Hcount "a.c").
Defined.

(** ** Equality of paths *)

Lemma list_string_eqb_eq (a b : list string) :
  list_string_eqb a b = true <-> a = b.
Proof.
  revert b. induction a as [|x a IH]; intros [|y b]; simpl;
    try (split; [discriminate|discriminate]); [tauto|].
  rewrite andb_true_iff, String.eqb_eq, IH. split.
  - intros [-> ->]. reflexivity.
  - intros H. injection H as -> ->. auto.
Qed.

Lemma fs_eqb_iff (p q : fs.path) :
  fs.eqb p q = true
  <-> fs.is_absolute p = fs.is_absolute q /\ fs.elements p = fs.elements q.
Proof.
  unfold fs.eqb. rewrite andb_true_iff, list_string_eqb_eq.
  rewrite Bool.eqb_true_iff. reflexivity.
Qed.

Lemma fs_eqb_refl (p : fs.path) : fs.eqb p p = true.
Proof. apply fs_eqb_iff. auto. Qed.

Lemma fs_eqb_congr_r (x p q : fs.path) :
  fs.eqb p q = true -> fs.eqb x p = fs.eqb x q.
Proof.
  intros H. apply fs_eqb_iff in H. destruct H as [Ha He].
  unfold fs.eqb. now rewrite Ha, He.
Qed.

Lemma fs_eqb_congr_l (x p q : fs.path) :
  fs.eqb p q = true -> fs.eqb p x = fs.eqb q x.
Proof.
  intros H. apply fs_eqb_iff in H. destruct H as [Ha He].
  unfold fs.eqb. now rewrite Ha, He.
Qed.

(** ** More on the per-source argument filter *)

Lemma kept_tokens_app (a b : CompilerFlags) (source : fs.path) :
  kept_tokens (a ++ b) source = kept_tokens a source ++ kept_tokens b source.
Proof.
  unfold kept_tokens. now rewrite List.filter_app, map_app, concat_app.
Qed.

Lemma kept_tokens_In (flags : CompilerFlags) (source : fs.path) (flag : CompilerFlag) :
  In flag flags -> kept source flag = true ->
  exists pre post, kept_tokens flags source = pre ++ arguments flag ++ post.
Proof.
  intros Hin Hkept. apply in_split in Hin. destruct Hin as [l1 [l2 ->]].
  exists (kept_tokens l1 source), (kept_tokens l2 source).
  rewrite kept_tokens_app. f_equal.
  unfold kept_tokens at 1. simpl. now rewrite Hkept.
Qed.

Lemma kept_tokens_sublist (flags : CompilerFlags) (source : fs.path) :
  sublist (kept_tokens flags source) (concat (map arguments flags)).
Proof.
  unfold kept_tokens. induction flags as [|flag flags IH]; simpl.
  - constructor.
  - destruct (kept source flag); simpl.
    + now apply sublist_app.
    + now apply sublist_inserts_l.
Qed.

Lemma kept_path_equal (p q : fs.path) (flag : CompilerFlag) :
  fs.eqb p q = true -> kept p flag = kept q flag.
Proof.
  intros H. unfold kept, other_source.
  now rewrite (fs_eqb_congr_r _ p q H).
Qed.

(** X1. The argument list the filter builds never asks for a link step: it
    starts with the synthetic [-c], or it holds, in one piece, the tokens
    of a flag of category [KIND_OF_OUTPUT_NO_LINKING] of the command. *)
Theorem filter_arguments_stops_before_linking :
  forall (flags : CompilerFlags) (source : fs.path),
    (exists rest, filter_arguments flags source = "-c" :: rest)
    \/ (exists flag pre post,
           In flag flags /\ type flag = KIND_OF_OUTPUT_NO_LINKING
           /\ filter_arguments flags source = pre ++ arguments flag ++ post).
Proof.
  intros flags source. rewrite filter_arguments_closed.
  destruct (has_no_linking flags) eqn:Hno.
  - right. apply has_no_linking_iff in Hno. destruct Hno as [flag [Hin Hty]].
    assert (Hkept : kept source flag = true).
    { unfold kept, other_source, is_source. now rewrite Hty. }
    destruct (kept_tokens_In flags source flag Hin Hkept) as [pre [post Heq]].
    exists flag, pre, post. auto.
  - left. eexists. reflexivity.
Qed.

(** X2. The filter invents no token and keeps the order of the command
    line: its result is a subsequence of [-c] followed by all the tokens of
    the flags. *)
Theorem filter_arguments_subsequence :
  forall (flags : CompilerFlags) (source : fs.path),
    sublist (filter_arguments flags source) ("-c" :: concat (map arguments flags)).
Proof.
  intros flags source. rewrite filter_arguments_closed.
  destruct (has_no_linking flags); simpl.
  - apply sublist_cons. apply kept_tokens_sublist.
  - apply sublist_skip. apply kept_tokens_sublist.
Qed.

(** X3. When no flag has an empty token list, the argument list built for a
    source of the command holds that source. *)
Theorem filter_arguments_keeps_own_source :
  forall (flags : CompilerFlags) (source : fs.path),
    Forall (fun flag => arguments flag <> []) flags ->
    In source (source_files flags) ->
    In source (filter_arguments flags source).
Proof.
  intros flags source Hne Hsrc.
  rewrite source_files_map in Hsrc. apply in_map_iff in Hsrc.
  destruct Hsrc as [flag [Hfront Hin]]. apply filter_In in Hin.
  destruct Hin as [Hin Hty].
  assert (Hkept : kept source flag = true).
  { unfold kept, other_source. rewrite Hty. unfold is_source in Hty.
    apply CompilerFlagType_eqb_eq in Hty. rewrite Hty. simpl.
    rewrite Hfront, fs_eqb_refl. reflexivity. }
  destruct (kept_tokens_In flags source flag Hin Hkept) as [pre [post Heq]].
  rewrite filter_arguments_closed, Heq.
  apply in_or_app. right. apply in_or_app. right. apply in_or_app. left.
  apply (proj1 (List.Forall_forall _ _)) with (x := flag) in Hne; [|assumption].
  destruct (arguments flag) as [|token rest]; [congruence|].
  simpl in Hfront. left. assumption.
Qed.

Lemma filter_arguments_keeps_own_source_witness :
  In "b.c"
    (filter_arguments
       [mkFlag ["a.c"] SOURCE; mkFlag ["-lm"] LINKER; mkFlag ["b.c"] SOURCE] "b.c").
Proof.
  apply filter_arguments_keeps_own_source.
  - repeat constructor; discriminate.
  - vm_compute. right. left. reflexivity.
Defined.

(** X4. Two spellings of one path get the same argument list: the filter
    reads its source only through the equality of paths. *)
Theorem filter_arguments_path_equal :
  forall (flags : CompilerFlags) (p q : fs.path),
    fs.eqb p q = true ->
    filter_arguments flags p = filter_arguments flags q.
Proof.
  intros flags p q H. rewrite !filter_arguments_closed. f_equal.
  unfold kept_tokens. do 2 f_equal.
  apply filter_ext. intros flag. now apply kept_path_equal.
Qed.

Lemma filter_arguments_path_equal_witness :
  filter_arguments [mkFlag ["src/a.c"] SOURCE; mkFlag ["src//a.c"] SOURCE] "src/a.c"
  = filter_arguments [mkFlag ["src/a.c"] SOURCE; mkFlag ["src//a.c"] SOURCE] "src//a.c".
Proof. apply filter_arguments_path_equal. vm_compute. reflexivity. Defined.

(** ** More on the compilation-pass test and the entries *)

Lemma runs_compilation_pass_bool (flags : CompilerFlags) :
  runs_compilation_pass flags
  = match flags with
    | [] => false
    | _ :: _ => negb (existsb is_info flags) && negb (existsb is_dependency_only flags)
    end.
Proof.
  destruct flags as [|flag flags]; [reflexivity|].
  unfold runs_compilation_pass.
  change (existsb (fun flag0 => CompilerFlagType_eqb (type flag0) KIND_OF_OUTPUT_INFO))
    with (existsb is_info).
  destruct (existsb is_info (flag :: flags)); [reflexivity|].
  match goal with |- (if ?b then _ else _) = _ => change b with
      (existsb is_dependency_only (flag :: flags)) end.
  now destruct (existsb is_dependency_only (flag :: flags)).
Qed.

Lemma existsb_Permutation {A : Type} (P : A -> bool) (l l' : list A) :
  Permutation l l' -> existsb P l = existsb P l'.
Proof.
  induction 1 as [|x l l' _ IH|x y l|l l' l'' _ IH1 _ IH2]; simpl.
  - reflexivity.
  - now rewrite IH.
  - now destruct (P x), (P y).
  - congruence.
Qed.

(** X5. The compilation-pass test does not depend on the order of the
    flags. *)
Theorem runs_compilation_pass_any_order :
  forall flags flags' : CompilerFlags,
    Permutation flags flags' ->
    runs_compilation_pass flags = runs_compilation_pass flags'.
Proof.
  intros flags flags' Hperm. rewrite !runs_compilation_pass_bool.
  rewrite (existsb_Permutation is_info _ _ Hperm).
  rewrite (existsb_Permutation is_dependency_only _ _ Hperm).
  destruct flags as [|f flags], flags' as [|f' flags']; try reflexivity.
  - apply Permutation_nil in Hperm. discriminate.
  - symmetry in Hperm. apply Permutation_nil in Hperm. discriminate.
Qed.

Lemma runs_compilation_pass_any_order_witness :
  runs_compilation_pass
    [mkFlag ["a.c"] SOURCE; mkFlag ["-c"] KIND_OF_OUTPUT_NO_LINKING; mkFlag ["-M"] PREPROCESSOR_MAKE]
  = runs_compilation_pass
      [mkFlag ["-M"] PREPROCESSOR_MAKE; mkFlag ["a.c"] SOURCE; mkFlag ["-c"] KIND_OF_OUTPUT_NO_LINKING].
Proof.
  apply runs_compilation_pass_any_order.
  symmetry. apply (Permutation_cons_append [_; _]).
Defined.

Lemma source_files_nil_iff (flags : CompilerFlags) :
  source_files flags = [] <-> forall flag, In flag flags -> type flag <> SOURCE.
Proof.
  rewrite source_files_map. split.
  - intros H flag Hin Hty. apply map_eq_nil in H.
    assert (Hf : In flag (List.filter is_source flags)).
    { apply filter_In. split; [assumption|]. unfold is_source. now rewrite Hty. }
    rewrite H in Hf. destruct Hf.
  - intros Hall. induction flags as [|flag flags IH]; simpl; [reflexivity|].
    unfold is_source at 1.
    destruct (CompilerFlagType_eqb (type flag) SOURCE) eqn:Hty.
    + apply CompilerFlagType_eqb_eq in Hty. destruct (Hall flag); simpl; auto.
    + apply IH. intros g Hin. apply Hall. now right.
Qed.

(** X6. A command gives no entry exactly when its flags fail the
    compilation-pass test or none of them is a source. *)
Theorem no_entries_iff :
  forall (command : report.Command) (flags : CompilerFlags),
    ToolGcc.compilations_of command flags = []
    <-> runs_compilation_pass flags = false
        \/ (forall flag, In flag flags -> type flag <> SOURCE).
Proof.
  intros command flags. rewrite <- source_files_nil_iff.
  destruct (runs_compilation_pass flags) eqn:Hpass.
  - rewrite compilations_of_pass by assumption. split.
    + intros H. right. now apply map_eq_nil in H.
    + intros [H|H]; [discriminate|]. now rewrite H.
  - rewrite compilations_of_no_pass by assumption. split; auto.
Qed.

(** X7. All entries of one command agree on the directory and on the
    output, and each argument list starts with the program of the
    command. *)
Theorem entries_share_directory_and_output :
  forall (command : report.Command) (flags : CompilerFlags) (e1 e2 : output.Entry),
    In e1 (ToolGcc.compilations_of command flags) ->
    In e2 (ToolGcc.compilations_of command flags) ->
    output.directory e1 = output.directory e2
    /\ output.output e1 = output.output e2
    /\ (exists rest, output.arguments e1 = report.program command :: rest).
Proof.
  intros command flags e1 e2 H1 H2.
  apply compilations_of_In in H1. destruct H1 as [s1 [_ ->]].
  apply compilations_of_In in H2. destruct H2 as [s2 [_ ->]].
  rewrite !entry_for_fields. simpl. repeat split. eexists. reflexivity.
Qed.

Lemma entries_share_directory_and_output_witness :
  output.output
    (output.mkEntry "/wd/x.c" "/wd" (Some "/wd/out") ["gcc"; "-c"; "x.c"; "-o"; "out"])
  = output.output
      (output.mkEntry "/wd/y.c" "/wd" (Some "/wd/out") ["gcc"; "-c"; "y.c"; "-o"; "out"]).
Proof.
  refine (proj1 (proj2
    (entries_share_directory_and_output
       (cmd "gcc" ["x.c"; "y.c"; "-o"; "out"] "/wd" ∅)
       [mkFlag ["x.c"] SOURCE; mkFlag ["y.c"] SOURCE;
        mkFlag ["-o"; "out"] KIND_OF_OUTPUT_OUTPUT]
       (output.mkEntry "/wd/x.c" "/wd" (Some "/wd/out") ["gcc"; "-c"; "x.c"; "-o"; "out"])
       (output.mkEntry "/wd/y.c" "/wd" (Some "/wd/out") ["gcc"; "-c"; "y.c"; "-o"; "out"])
       _ _))).
  - vm_compute. left. reflexivity.
  - vm_compute. right. left. reflexivity.
Defined.

(** ** Flags that leave no trace *)

Lemma output_files_app (a b : CompilerFlags) :
  output_files (a ++ b)
  = match output_files a with
    | Some o => Some o
    | None => output_files b
    end.
Proof.
  induction a as [|flag a IH]; simpl; [reflexivity|].
  now destruct (output_file flag).
Qed.

Lemma source_files_app (a b : CompilerFlags) :
  source_files (a ++ b) = source_files a ++ source_files b.
Proof. rewrite !source_files_flat_map. apply flat_map_app. Qed.

Lemma has_no_linking_app (a b : CompilerFlags) :
  has_no_linking (a ++ b) = has_no_linking a || has_no_linking b.
Proof. apply existsb_app. Qed.

Section DroppedFlag.
Variable flag : CompilerFlag.
Hypothesis flag_dropped : dropped_category (type flag) = true.
Hypothesis flag_passes : runs_compilation_pass [flag] = true.

Lemma dropped_not_source : source_files [flag] = [].
Proof.
  rewrite source_files_map. simpl. unfold is_source.
  destruct (type flag); try discriminate; reflexivity.
Qed.

Lemma dropped_no_output : output_files [flag] = None.
Proof.
  simpl. unfold output_file. destruct (type flag); try discriminate; reflexivity.
Qed.

Lemma dropped_no_linking : has_no_linking [flag] = false.
Proof.
  unfold has_no_linking. simpl. destruct (type flag); try discriminate; reflexivity.
Qed.

Lemma dropped_not_kept (source : fs.path) : kept_tokens [flag] source = [].
Proof. unfold kept_tokens, kept. simpl. now rewrite flag_dropped. Qed.

Lemma dropped_not_info : is_info flag = false.
Proof. unfold is_info. destruct (type flag); try discriminate; reflexivity. Qed.

Lemma dropped_not_dependency_only : is_dependency_only flag = false.
Proof.
  pose proof flag_passes as H. rewrite runs_compilation_pass_bool in H.
  simpl in H. rewrite !orb_false_r in H.
  apply andb_prop in H. destruct H as [_ H].
  now apply negb_true_iff in H.
Qed.

Lemma dropped_same_arguments (pre post : CompilerFlags) (source : fs.path) :
  filter_arguments (pre ++ flag :: post) source = filter_arguments (pre ++ post) source.
Proof.
  rewrite !filter_arguments_closed.
  change (flag :: post) with ([flag] ++ post).
  rewrite !has_no_linking_app, !kept_tokens_app.
  now rewrite dropped_no_linking, dropped_not_kept.
Qed.

Lemma dropped_same_output (pre post : CompilerFlags) :
  output_files (pre ++ flag :: post) = output_files (pre ++ post).
Proof.
  change (flag :: post) with ([flag] ++ post).
  rewrite !output_files_app. now rewrite dropped_no_output.
Qed.

Lemma dropped_same_sources (pre post : CompilerFlags) :
  source_files (pre ++ flag :: post) = source_files (pre ++ post).
Proof.
  change (flag :: post) with ([flag] ++ post).
  rewrite !source_files_app. now rewrite dropped_not_source.
Qed.

Lemma dropped_same_pass (pre post : CompilerFlags) :
  pre ++ post <> [] ->
  runs_compilation_pass (pre ++ flag :: post) = runs_compilation_pass (pre ++ post).
Proof.
  intros Hne. rewrite !runs_compilation_pass_bool.
  change (flag :: post) with ([flag] ++ post).
  rewrite !existsb_app. simpl.
  rewrite dropped_not_info, dropped_not_dependency_only. simpl.
  destruct (pre ++ post) eqn:Hpp; [congruence|].
  destruct pre; simpl; reflexivity.
Qed.

Lemma dropped_same_entries (command : report.Command) (pre post : CompilerFlags) :
  ToolGcc.compilations_of command (pre ++ flag :: post)
  = ToolGcc.compilations_of command (pre ++ post).
Proof.
  destruct (pre ++ post) as [|g rest] eqn:Hpp.
  - apply app_eq_nil in Hpp. destruct Hpp as [-> ->]. simpl.
    rewrite compilations_of_pass by exact flag_passes.
    now rewrite dropped_not_source.
  - assert (Hne : pre ++ post <> []) by (rewrite Hpp; discriminate).
    rewrite <- Hpp.
    destruct (runs_compilation_pass (pre ++ post)) eqn:Hpass.
    + rewrite !compilations_of_pass; [|assumption|now rewrite dropped_same_pass].
      rewrite dropped_same_sources. apply map_ext. intros source.
      unfold entry_for. now rewrite dropped_same_output, dropped_same_arguments.
    + rewrite !compilations_of_no_pass; [reflexivity|assumption|].
      now rewrite dropped_same_pass.
Qed.
End DroppedFlag.

(** X8. A flag of category [LINKER], [PREPROCESSOR_MAKE] or
    [DIRECTORY_SEARCH_LINKER] that does not stop the pass by itself leaves
    no trace: with it or without it, anywhere in the command, the entries
    are the same. *)
Theorem dropped_flag_leaves_entries_unchanged :
  forall (command : report.Command) (pre post : CompilerFlags) (flag : CompilerFlag),
    dropped_category (type flag) = true ->
    runs_compilation_pass [flag] = true ->
    ToolGcc.compilations_of command (pre ++ flag :: post)
    = ToolGcc.compilations_of command (pre ++ post).
Proof.
  intros command pre post flag Hdrop Hpass.
  now apply dropped_same_entries.
Qed.

Lemma dropped_flag_leaves_entries_unchanged_witness :
  ToolGcc.compilations_of (cmd "gcc" [] "/wd" ∅)
    ([mkFlag ["-c"] KIND_OF_OUTPUT_NO_LINKING]
       ++ mkFlag ["-MF"; "a.d"] PREPROCESSOR_MAKE :: [mkFlag ["a.c"] SOURCE])
  = ToolGcc.compilations_of (cmd "gcc" [] "/wd" ∅)
      ([mkFlag ["-c"] KIND_OF_OUTPUT_NO_LINKING] ++ [mkFlag ["a.c"] SOURCE]).
Proof.
  apply dropped_flag_leaves_entries_unchanged; vm_compute; reflexivity.
Defined.

(** ** More on the flags from the environment *)

(** X9. The synthesiser reads four variables and nothing else: two
    environments that agree on [CPATH], [C_INCLUDE_PATH],
    [CPLUS_INCLUDE_PATH] and [OBJC_INCLUDE_PATH] give the same flags. *)
Theorem flags_from_environment_reads_four_variables :
  forall env env' : gmap string string,
    (forall name,
        In name ["CPATH"; "C_INCLUDE_PATH"; "CPLUS_INCLUDE_PATH"; "OBJC_INCLUDE_PATH"] ->
        env !! name = env' !! name) ->
    flags_from_environment env = flags_from_environment env'.
Proof.
  intros env env' Hsame. rewrite !flags_from_environment_closed.
  rewrite !Hsame by (simpl; auto). reflexivity.
Qed.

Lemma flags_from_environment_reads_four_variables_witness :
  flags_from_environment {["CPATH" := "/usr/x"]}
  = flags_from_environment (<["LIBRARY_PATH" := "/usr/lib"]> {["CPATH" := "/usr/x"]}).
Proof.
  apply flags_from_environment_reads_four_variables.
  intros name [<-|[<-|[<-|[<-|[]]]]]; vm_compute; reflexivity.
Defined.

Lemma variable_flags_pairs (flag : string) (value : option string) :
  flag <> "" ->
  exists pairs : list (string * string),
    variable_flags flag value = flat_map pair_tokens pairs
    /\ Forall (fun p => fst p = flag /\ snd p <> "") pairs.
Proof.
  intros Hflag. destruct value as [v|]; simpl; [|exists []; split; [reflexivity|constructor]].
  induction (sys.path_split v) as [|segment segments IH]; simpl.
  - exists []. split; [reflexivity|constructor].
  - destruct IH as [pairs [Heq Hall]].
    exists ((flag, if string_empty segment then "." else segment) :: pairs).
    split; [simpl; now rewrite Heq|].
    constructor; [|assumption]. simpl. split; [reflexivity|].
    destruct segment; simpl; discriminate.
Qed.

(** X10. The synthesised tokens come in pairs of a flag, [-I] or
    [-isystem], and a directory that is never the empty string; once an
    [-isystem] pair has appeared no [-I] pair follows. *)
Theorem flags_from_environment_pairs :
  forall env : gmap string string,
  exists includes systems : list (string * string),
    flags_from_environment env
    = flat_map pair_tokens includes ++ flat_map pair_tokens systems
    /\ Forall (fun p => fst p = "-I" /\ snd p <> "") includes
    /\ Forall (fun p => fst p = "-isystem" /\ snd p <> "") systems.
Proof.
  intros env. rewrite flags_from_environment_closed.
  destruct (variable_flags_pairs "-I" (env !! "CPATH")) as [p1 [-> H1]]; [discriminate|].
  destruct (variable_flags_pairs "-I" (env !! "C_INCLUDE_PATH")) as [p2 [-> H2]];
    [discriminate|].
  destruct (variable_flags_pairs "-I" (env !! "CPLUS_INCLUDE_PATH")) as [p3 [-> H3]];
    [discriminate|].
  destruct (variable_flags_pairs "-isystem" (env !! "OBJC_INCLUDE_PATH")) as [p4 [-> H4]];
    [discriminate|].
  exists (p1 ++ p2 ++ p3), p4. split; [|split].
  - rewrite !flat_map_app, <- !app_assoc. reflexivity.
  - apply List.Forall_app. split; [assumption|].
    apply List.Forall_app. split; assumption.
  - assumption.
Qed.

(** ** More on absolute paths *)

Lemma transform_absolute (directory path : fs.path) :
  fs.is_absolute path = true -> transform directory path = path.
Proof. intros H. unfold transform. now rewrite H. Qed.

(** X11. With an absolute directory [make_absolute] settles an entry: a
    second pass changes nothing. *)
Theorem make_absolute_idempotent :
  forall entry : output.Entry,
    fs.is_absolute (output.directory entry) = true ->
    make_absolute (make_absolute entry) = make_absolute entry.
Proof.
  intros [file directory out arguments] Habs. simpl in Habs.
  unfold make_absolute. simpl. f_equal.
  - apply transform_absolute. now apply is_absolute_transform.
  - destruct out as [o|]; [|reflexivity]. f_equal.
    apply transform_absolute. now apply is_absolute_transform.
Qed.

Lemma make_absolute_idempotent_witness :
  make_absolute (make_absolute (output.mkEntry "a.c" "/wd" (Some "a.o") ["gcc"; "-c"; "a.c"]))
  = make_absolute (output.mkEntry "a.c" "/wd" (Some "a.o") ["gcc"; "-c"; "a.c"]).
Proof. apply make_absolute_idempotent. reflexivity. Defined.

(** ** File names *)

Lemma split_not_nil (sep : ascii) (s : string) : split sep s <> [].
Proof.
  destruct s as [|c s]; simpl; [discriminate|].
  destruct (Ascii.eqb c sep); [discriminate|].
  destruct (split sep s); discriminate.
Qed.

Lemma split_free (sep : ascii) (s : string) :
  free_of sep s = true -> split sep s = [s].
Proof.
  induction s as [|c s IH]; simpl; [reflexivity|].
  intros H. apply andb_prop in H. destruct H as [Hc Hs].
  apply negb_true_iff in Hc. rewrite Hc, (IH Hs). reflexivity.
Qed.

Lemma split_after_separator (sep : ascii) (d s : string) :
  exists seg segs,
    split sep (d +:+ String sep s) = (seg :: segs) ++ split sep s.
Proof.
  induction d as [|c d (seg & segs & IH)]; simpl.
  - rewrite Ascii.eqb_refl. exists EmptyString, []. reflexivity.
  - rewrite IH. destruct (Ascii.eqb c sep).
    + exists EmptyString, (seg :: segs). reflexivity.
    + exists (String c seg), segs. reflexivity.
Qed.

Lemma last_app_not_nil {A : Type} (l l' : list A) (d : A) :
  l' <> [] -> List.last (l ++ l') d = List.last l' d.
Proof.
  intros Hne. induction l as [|x l IH]; simpl; [reflexivity|].
  destruct (l ++ l') eqn:Happ; [|assumption].
  apply app_eq_nil in Happ. destruct Happ. congruence.
Qed.

Lemma filename_after_separator (dir name : string) :
  free_of "/" name = true -> fs.filename (dir +:+ "/" +:+ name) = name.
Proof.
  intros Hfree. unfold fs.filename.
  change (dir +:+ "/" +:+ name) with (dir +:+ String "/" name).
  destruct (split_after_separator "/" dir name) as (seg & segs & ->).
  rewrite last_app_not_nil by apply split_not_nil.
  now rewrite split_free.
Qed.

(** X12. Only the part after the last separator counts for the name test:
    a name without separator is judged the same under any directory, and a
    path that ends in a separator is never taken for a compiler. *)
Theorem match_executable_name_ignores_directory :
  forall dir : string,
    (forall name,
        free_of "/" name = true ->
        match_executable_name (dir +:+ "/" +:+ name) = match_executable_name name)
    /\ match_executable_name (dir +:+ "/") = false.
Proof.
  intros dir. split.
  - intros name Hfree. unfold match_executable_name.
    rewrite filename_after_separator by assumption.
    unfold fs.filename. now rewrite split_free.
  - unfold match_executable_name.
    change (dir +:+ "/") with (dir +:+ "/" +:+ "").
    rewrite filename_after_separator by reflexivity. reflexivity.
Qed.

Lemma match_executable_name_ignores_directory_witness :
  match_executable_name ("/opt/cross/bin" +:+ "/" +:+ "arm-none-eabi-gcc")
  = match_executable_name "arm-none-eabi-gcc".
Proof.
  apply (proj1 (match_executable_name_ignores_directory "/opt/cross/bin")).
  reflexivity.
Defined.

Lemma last_all_empty (l : list string) :
  List.filter (fun s => negb (string_empty s)) l = [] -> List.last l EmptyString = EmptyString.
Proof.
  induction l as [|x l IH]; simpl; [reflexivity|].
  destruct x; simpl; [|discriminate].
  intros H. destruct l; [reflexivity|]. now apply IH.
Qed.

Lemma last_filter_named (l : list string) :
  string_empty (List.last l EmptyString) = false ->
  List.last (List.filter (fun s => negb (string_empty s)) l) EmptyString
  = List.last l EmptyString.
Proof.
  induction l as [|x l IH]; [reflexivity|]. intros H.
  destruct l as [|y l'] eqn:El.
  - simpl in *. now rewrite H.
  - rewrite <- El in *.
    assert (Hl : List.last (x :: l) EmptyString = List.last l EmptyString)
      by (rewrite El; reflexivity).
    rewrite Hl in *. specialize (IH H). simpl List.filter.
    destruct (negb (string_empty x)); [|exact IH].
    destruct (List.filter _ l) eqn:Hf.
    + apply last_all_empty in Hf. rewrite Hf in H. discriminate.
    + rewrite <- IH. reflexivity.
Qed.

Lemma filename_last_element (p : fs.path) :
  fs.filename p = List.last (fs.elements p) EmptyString.
Proof.
  unfold fs.elements, fs.has_filename, fs.filename.
  set (segs := split "/" p).
  destruct (List.filter _ segs) as [|n names] eqn:Hnames.
  - now apply last_all_empty.
  - destruct (string_empty (List.last segs EmptyString)) eqn:Hlast; cbn [negb].
    + rewrite last_last. now destruct (List.last segs EmptyString).
    + rewrite <- Hnames. symmetry. now apply last_filter_named.
Qed.

(** X13. The recogniser judges a program by its path, not by its spelling:
    two paths that are equal as paths, such as [/usr//bin/gcc] and
    [/usr/bin/gcc], are accepted or rejected together, whatever the
    allow-list. *)
Theorem recognize_path_equal :
  forall (paths : list fs.path) (p q : fs.path),
    fs.eqb p q = true ->
    ToolGcc.recognize paths p = ToolGcc.recognize paths q.
Proof.
  intros paths p q H. unfold ToolGcc.recognize. f_equal.
  - induction paths as [|x paths IH]; simpl; [reflexivity|].
    now rewrite IH, (fs_eqb_congr_r x p q H).
  - unfold match_executable_name. rewrite !filename_last_element.
    apply fs_eqb_iff in H. destruct H as [_ ->]. reflexivity.
Qed.

Lemma recognize_path_equal_witness :
  ToolGcc.recognize ["/opt/tool"] "/usr//bin/gcc"
  = ToolGcc.recognize ["/opt/tool"] "/usr/bin/gcc".
Proof. apply recognize_path_equal. vm_compute. reflexivity. Defined.

(** ** Cross compilers *)

Lemma list_ascii_of_string_app (a b : string) :
  list_ascii_of_string (a +:+ b) = list_ascii_of_string a ++ list_ascii_of_string b.
Proof. induction a as [|c a IH]; simpl; [reflexivity|now rewrite IH]. Qed.

Lemma free_of_app (c : ascii) (a b : string) :
  free_of c (a +:+ b) = free_of c a && free_of c b.
Proof.
  induction a as [|x a IH]; simpl; [reflexivity|].
  now rewrite IH, andb_assoc.
Qed.

Lemma filename_free (name : string) :
  free_of "/" name = true -> fs.filename name = name.
Proof. intros H. unfold fs.filename. now rewrite split_free. Qed.

Lemma Matches_Lit (s : string) (w : list ascii) :
  Matches (Lit s) w -> w = list_ascii_of_string s.
Proof.
  revert w. induction s as [|c s IH]; simpl; intros w H.
  - now inversion H.
  - inversion H as [| | ? ? u v Hu Hv | | | |]; subst.
    inversion Hu as [|? x Hx| | | | |]; subst.
    apply Ascii.eqb_eq in Hx. subst. simpl. f_equal. now apply IH.
Qed.

Lemma Matches_anchored (r : regex) (w : list ascii) :
  Matches (anchored r) w <-> Matches r w.
Proof.
  unfold anchored, Bol, Eol. split.
  - intros H. inversion H as [| | ? ? u v Hu Hv | | | |]; subst.
    inversion Hu; subst.
    inversion Hv as [| | ? ? u' v' Hu' Hv' | | | |]; subst.
    inversion Hv'; subst. simpl. now rewrite app_nil_r.
  - intros H. change w with ([] ++ w). constructor; [constructor|].
    rewrite <- (app_nil_r w). constructor; [assumption|constructor].
Qed.

Lemma Matches_no_dash (s : string) :
  free_of "-" s = true -> Matches (Star (NotChr "-")) (list_ascii_of_string s).
Proof.
  induction s as [|c s IH]; simpl; intros H; [constructor|].
  apply andb_prop in H. destruct H as [Hc Hs].
  change (c :: list_ascii_of_string s) with ([c] ++ list_ascii_of_string s).
  constructor; [|auto]. constructor. now rewrite Ascii.eqb_sym.
Qed.

Lemma Matches_target_prefix (target : string) (body : regex) (w : list ascii) :
  free_of "-" target = true ->
  Matches (Seq target_prefix body) w ->
  Matches (Seq target_prefix body) (list_ascii_of_string target ++ "-"%char :: w).
Proof.
  intros Hfree H. inversion H as [| | ? ? u v Hu Hv | | | |]; subst.
  replace (list_ascii_of_string target ++ "-"%char :: u ++ v)
    with (((list_ascii_of_string target ++ ["-"%char]) ++ u) ++ v)
    by (rewrite <- !app_assoc; reflexivity).
  constructor; [|assumption].
  unfold target_prefix. constructor; [|exact Hu].
  constructor; [now apply Matches_no_dash|].
  constructor. apply Ascii.eqb_refl.
Qed.

Lemma Matches_Alt_inv (a b : regex) (w : list ascii) :
  Matches (Alt a b) w -> Matches a w \/ Matches b w.
Proof. intros H. inversion H; subst; auto. Qed.

Lemma first_pattern_names (w : list ascii) :
  Matches (anchored (Alt (Lit "cc") (Alt (Lit "c++") (Alt (Lit "cxx") (Lit "CC"))))) w ->
  In (string_of_list_ascii w) ["cc"; "c++"; "cxx"; "CC"].
Proof.
  intros H. apply (proj1 (Matches_anchored _ _)) in H.
  apply Matches_Alt_inv in H. destruct H as [H|H].
  { apply Matches_Lit in H. subst. simpl. auto. }
  apply Matches_Alt_inv in H. destruct H as [H|H].
  { apply Matches_Lit in H. subst. simpl. auto. }
  apply Matches_Alt_inv in H. destruct H as [H|H];
    apply Matches_Lit in H; subst; simpl; auto.
Qed.

(** X14. A recognised compiler name stays recognised under a target prefix:
    when [name] passes the name test and is not one of the bare names [cc],
    [c++], [cxx], [CC], then so does [target-name] for every [target] without
    a dash. *)
Theorem target_prefix_stays_recognised :
  forall target name : string,
    free_of "-" target = true ->
    free_of "/" target = true ->
    free_of "/" name = true ->
    match_executable_name name = true ->
    ~ In name ["cc"; "c++"; "cxx"; "CC"] ->
    match_executable_name (target +:+ "-" +:+ name) = true.
Proof.
  intros target name Hdash Hslash Hname Hmatch Hbare.
  apply match_executable_name_iff in Hmatch.
  destruct Hmatch as [r [Hin Hm]]. rewrite filename_free in Hm by assumption.
  apply match_executable_name_iff.
  rewrite filename_free
    by (rewrite !free_of_app, Hslash, Hname; reflexivity).
  rewrite !list_ascii_of_string_app. simpl.
  unfold patterns, patterns_with in Hin. simpl in Hin.
  destruct Hin as [<-|[<-|[<-|[<-|[]]]]].
  - apply first_pattern_names in Hm.
    rewrite string_of_list_ascii_of_string in Hm. contradiction.
  - eexists. split; [right; left; reflexivity|].
    apply (proj2 (Matches_anchored _ _)). apply (proj1 (Matches_anchored _ _)) in Hm.
    now apply Matches_target_prefix.
  - eexists. split; [right; right; left; reflexivity|].
    apply (proj2 (Matches_anchored _ _)). apply (proj1 (Matches_anchored _ _)) in Hm.
    now apply Matches_target_prefix.
  - eexists. split; [right; right; right; left; reflexivity|].
    apply (proj2 (Matches_anchored _ _)). apply (proj1 (Matches_anchored _ _)) in Hm.
    now apply Matches_target_prefix.
Qed.

Lemma target_prefix_stays_recognised_witness :
  match_executable_name ("riscv64" +:+ "-" +:+ "linux-gnu-g++-12") = true.
Proof.
  apply target_prefix_stays_recognised; try (vm_compute; reflexivity).
  simpl. intros [H|[H|[H|[H|[]]]]]; discriminate.
Defined.
